(** * ooz: bounded scalars and the XY vector classes

    A shallow embedding of [src/2d/xy/u16-xy.ts] (class [U16XY] and the
    [XY] interfaces), of the [I4XY] class, and of [src/utils/color.ts].

    JavaScript numbers are embedded as exact rationals extended with the
    two infinities and NaN: arithmetic is the exact one (no binary64
    rounding) and the negative zero is identified with zero. *)

From Stdlib Require Import ZArith QArith Qround Qabs Lia Lqa List Bool.
From Stdlib Require String Ascii.
From stdpp Require Import base list.
Import ListNotations.

Open Scope Q_scope.

(** ** JavaScript numbers *)

Module JS.

Inductive number : Type :=
| Fin (q : Q)
| PInf
| NInf
| NaN.

Definition of_Z (z : Z) : number := Fin (inject_Z z).

(** Sign of a rational as a comparison with zero. *)
Definition Qsign (q : Q) : comparison := (0 ?= q).

Definition neg (n : number) : number :=
  match n with
  | Fin q => Fin (- q)
  | PInf => NInf
  | NInf => PInf
  | NaN => NaN
  end.

(** [a + b] *)
Definition add (a b : number) : number :=
  match a, b with
  | NaN, _ | _, NaN => NaN
  | Fin p, Fin q => Fin (p + q)
  | PInf, NInf | NInf, PInf => NaN
  | PInf, _ | _, PInf => PInf
  | NInf, _ | _, NInf => NInf
  end.

(** [a - b] *)
Definition sub (a b : number) : number := add a (neg b).

(** An infinity whose sign is flipped by a negative factor. *)
Definition signed_inf (positive : bool) : number :=
  if positive then PInf else NInf.

Definition inf_times (positive : bool) (q : Q) : number :=
  match Qsign q with
  | Eq => NaN
  | Lt => signed_inf positive
  | Gt => signed_inf (negb positive)
  end.

(** [a * b] *)
Definition mul (a b : number) : number :=
  match a, b with
  | NaN, _ | _, NaN => NaN
  | Fin p, Fin q => Fin (p * q)
  | PInf, Fin q | Fin q, PInf => inf_times true q
  | NInf, Fin q | Fin q, NInf => inf_times false q
  | PInf, PInf | NInf, NInf => PInf
  | PInf, NInf | NInf, PInf => NInf
  end.

(** [a / b]: a finite non-zero number over zero is an infinity, zero over
    zero is NaN; no exception is raised by the division itself.  The one
    zero of this model stands for [+0]: over [-0] JavaScript's quotient
    is the infinity of the other sign, so nothing below is stated about
    the sign of a quotient by zero. *)
Definition div (a b : number) : number :=
  match a, b with
  | NaN, _ | _, NaN => NaN
  | Fin p, Fin q =>
      match Qsign q with
      | Eq => inf_times true p
      | _ => Fin (p / q)
      end
  | Fin _, (PInf | NInf) => Fin 0
  | PInf, Fin q => match Qsign q with Gt => NInf | _ => PInf end
  | NInf, Fin q => match Qsign q with Gt => PInf | _ => NInf end
  | (PInf | NInf), (PInf | NInf) => NaN
  end.

(** [a < b] (false as soon as one side is NaN). *)
Definition ltb (a b : number) : bool :=
  match a, b with
  | NaN, _ | _, NaN => false
  | Fin p, Fin q => negb (Qle_bool q p)
  | NInf, NInf | PInf, _ | _, NInf => false
  | NInf, _ | _, PInf => true
  end.

(** [a === b] on numbers ([==] coincides with it on numbers). *)
Definition eqb (a b : number) : bool :=
  match a, b with
  | Fin p, Fin q => Qeq_bool p q
  | PInf, PInf | NInf, NInf => true
  | _, _ => false
  end.

(** [Math.abs] *)
Definition abs (n : number) : number :=
  match n with
  | Fin q => Fin (Qabs q)
  | PInf | NInf => PInf
  | NaN => NaN
  end.

(** [Math.max] and [Math.min] of two arguments. *)
Definition max (a b : number) : number :=
  match a, b with
  | NaN, _ | _, NaN => NaN
  | _, _ => if ltb a b then b else a
  end.

Definition min (a b : number) : number :=
  match a, b with
  | NaN, _ | _, NaN => NaN
  | _, _ => if ltb b a then b else a
  end.

(** Lifting of an integer-valued rounding of the rationals. *)
Definition rounding (f : Q -> Z) (n : number) : number :=
  match n with
  | Fin q => Fin (inject_Z (f q))
  | _ => n
  end.

Definition Qround_half_up (q : Q) : Z := Qfloor (q + (1 # 2)).

Definition Qtrunc (q : Q) : Z :=
  if Qle_bool 0 q then Qfloor q else Qceiling q.

(** [Math.ceil], [Math.floor], [Math.round], [Math.trunc] *)
Definition ceil : number -> number := rounding Qceiling.
Definition floor : number -> number := rounding Qfloor.
Definition round : number -> number := rounding Qround_half_up.
Definition trunc : number -> number := rounding Qtrunc.

(** A whole (integer-valued) rational. *)
Definition Qwhole (q : Q) : bool := Qeq_bool q (inject_Z (Qfloor q)).

End JS.

Export JS (number, Fin, PInf, NInf, NaN).

Declare Scope js_scope.
Delimit Scope js_scope with js.
Bind Scope js_scope with number.
Infix "+" := JS.add : js_scope.
Infix "-" := JS.sub : js_scope.
Infix "*" := JS.mul : js_scope.
Infix "/" := JS.div : js_scope.
Infix "===" := JS.eqb (at level 70, no associativity) : js_scope.

(** ** Outcomes and errors *)

(** Modelled from the spec: what the absent scalar modules throw; the
    taxonomy is that of section 7.  [TypeError] is what JavaScript itself
    raises when a private field is read from something that is not an
    instance. *)
Inductive error : Type :=
| RangeViolation
| NonIntegralViolation
| DivisionByZero
| MalformedInput
| TypeError.

Inductive result (A : Type) : Type :=
| Ok (a : A)
| Throw (e : error).
Arguments Ok {A} a.
Arguments Throw {A} e.

(** ** Scalar kinds and the coercion calculus *)

(** Modelled from the spec: the shape of a scalar kind (section 3). *)
Inductive shape : Type := Integral | Fractional.

(** Modelled from the spec: the descriptor of a scalar kind (section 3),
    with finite limits. *)
Record kind : Type := Kind {
  kshape : shape;
  kmin : Q;
  kmax : Q
}.

(** Modelled from the spec: a kind is well formed when its range is not
    empty and, for an integral kind, its limits are whole numbers. *)
Definition valid_kind (K : kind) : bool :=
  Qle_bool (kmin K) (kmax K) &&
  match kshape K with
  | Integral => JS.Qwhole (kmin K) && JS.Qwhole (kmax K)
  | Fractional => true
  end.

(** Modelled from the spec: [min <= q <= max]. *)
Definition in_range (K : kind) (q : Q) : bool :=
  Qle_bool (kmin K) q && Qle_bool q (kmax K).

(** Modelled from the spec: a scalar value of kind [K] (section 3) is
    finite, within the limits and, for an integral kind, whole. *)
Definition is_scalar (K : kind) (n : number) : bool :=
  match n with
  | Fin q =>
      in_range K q &&
      match kshape K with Integral => JS.Qwhole q | Fractional => true end
  | _ => false
  end.

(** Both imported scalar modules ([U16] from [@/oidlib], [I4] from
    [@/ooz]) are callable objects that also carry the named coercions;
    the XY classes only ever call them through this interface. *)
Module Scalar.
Class t : Type := Make {
  cast : number -> result number;
  ceil : number -> result number;
  clamp : number -> result number;
  floor : number -> result number;
  round : number -> result number;
  trunc : number -> result number
}.
End Scalar.

Module Coercion.

(** Modelled from the spec: the code of the scalar modules [U16] and
    [I4] is missing, so this is the Cast policy of section 4.1: the
    number must already lie within the limits and be whole for an
    integral kind, and it is returned as it is. *)
Definition Cast (K : kind) (r : number) : result number :=
  match r with
  | Fin q =>
      if in_range K q then
        match kshape K with
        | Integral => if JS.Qwhole q then Ok r else Throw NonIntegralViolation
        | Fractional => Ok r
        end
      else Throw RangeViolation
  | _ => Throw RangeViolation
  end.

(** Modelled from the spec: saturation of section 4.1, to [min] below the
    range and to [max] above it, anything else passing through. *)
Definition saturate (K : kind) (r : number) : number :=
  match r with
  | Fin q =>
      if negb (Qle_bool (kmin K) q) then Fin (kmin K)
      else if negb (Qle_bool q (kmax K)) then Fin (kmax K)
      else r
  | PInf => Fin (kmax K)
  | NInf => Fin (kmin K)
  | NaN => NaN
  end.

(** Modelled from the spec: a rounding policy of section 4.1 rounds
    first and saturates second; the outcome goes through the invariant
    check of section 7, which only NaN can fail. *)
Definition rounded (K : kind) (f : number -> number) (r : number)
  : result number :=
  Cast K (saturate K (f r)).

(** Modelled from the spec: [U16.ceil], the ceiling saturated. *)
Definition Ceil (K : kind) : number -> result number := rounded K JS.ceil.

(** Modelled from the spec: [U16.floor], the floor saturated. *)
Definition Floor (K : kind) : number -> result number := rounded K JS.floor.

(** Modelled from the spec: [U16.round], the nearest whole number, a tie
    going up as [Math.round] has it, saturated. *)
Definition Round (K : kind) : number -> result number := rounded K JS.round.

(** Modelled from the spec: [U16.trunc], the truncation toward zero
    saturated. *)
Definition Trunc (K : kind) : number -> result number := rounded K JS.trunc.

(** Modelled from the spec: Clamp saturates, and truncates toward zero
    first for an integral kind. *)
Definition Clamp (K : kind) : number -> result number :=
  match kshape K with
  | Integral => rounded K JS.trunc
  | Fractional => rounded K (fun r => r)
  end.

End Coercion.

(** Modelled from the spec: the scalar module of a kind, its six
    coercions bundled. *)
Definition scalar_of (K : kind) : Scalar.t :=
  Scalar.Make (Coercion.Cast K) (Coercion.Ceil K) (Coercion.Clamp K)
              (Coercion.Floor K) (Coercion.Round K) (Coercion.Trunc K).

(** Modelled from the spec: the 16-bit unsigned kind, whose range the
    spec gives as [0, 65535]. *)
Definition U16_kind : kind := Kind Integral 0 65535.

(** Modelled from the spec: the 4-bit signed kind, [-8, 7]. *)
Definition I4_kind : kind := Kind Integral (-8) 7.

(** Modelled from the spec: the scalar module [U16] that [U16XY]
    imports. *)
Definition U16 : Scalar.t := scalar_of U16_kind.

(** Modelled from the spec: the scalar module [I4] that [I4XY] imports. *)
Definition I4 : Scalar.t := scalar_of I4_kind.

(** ** Plain records, instances and the store *)

(** [interface XY<T> { x: T; y: T }] *)
Module XY.
Record t (T : Type) : Type := Make { x : T; y : T }.
Arguments Make {T} x y.
Arguments x {T} _.
Arguments y {T} _.
End XY.

(** The JSON of an [I4XY]: [Partial<XY<I4>>], either field may be absent. *)
Module XYJSON.
Record t : Type := Make { x : option number; y : option number }.
End XYJSON.

(** An instance is its two private fields [#x] and [#y]; instances live
    in a store and are passed around by reference. *)
Definition loc : Type := nat.
Definition store : Type := list (XY.t number).

(** Computations over the store that may throw: the store is threaded
    through a throw, so what was written before it stays written. *)
Definition M (A : Type) : Type := store -> result A * store.

Definition ret {A} (a : A) : M A := fun s => (Ok a, s).

Definition bind {A B} (c : M A) (k : A -> M B) : M B :=
  fun s =>
    match c s with
    | (Ok a, s') => k a s'
    | (Throw e, s') => (Throw e, s')
    end.

Definition lift {A} (r : result A) : M A := fun s => (r, s).

Notation "'let*' v := c 'in' k" := (bind c (fun v => k))
  (at level 10, v name, c at level 100, k at level 200).
Notation "'do' c 'in' k" := (bind c (fun _ => k))
  (at level 10, c at level 100, k at level 200).

(** [this.#x] and [this.#y] read. *)
Definition read_x (this : loc) : M number :=
  fun s =>
    match s !! this with
    | Some o => (Ok (XY.x o), s)
    | None => (Throw TypeError, s)
    end.

Definition read_y (this : loc) : M number :=
  fun s =>
    match s !! this with
    | Some o => (Ok (XY.y o), s)
    | None => (Throw TypeError, s)
    end.

(** [this.#x = v] and [this.#y = v] *)
Definition write_x (this : loc) (v : number) : M unit :=
  fun s =>
    match s !! this with
    | Some o => (Ok tt, <[this := XY.Make v (XY.y o)]> s)
    | None => (Throw TypeError, s)
    end.

Definition write_y (this : loc) (v : number) : M unit :=
  fun s =>
    match s !! this with
    | Some o => (Ok tt, <[this := XY.Make (XY.x o) v]> s)
    | None => (Throw TypeError, s)
    end.

(** A new instance, at the first free reference. *)
Definition alloc (o : XY.t number) : M loc :=
  fun s => (Ok (length s), s ++ [o]).

(** The overloaded argument [xXY: number | Readonly<XY<number>>, y?: number].
    A record is given by the values of its two fields: a method reads
    [xXY.x] before it writes [#x] and [xXY.y] before it writes [#y], so
    even the instance itself passed as argument is read as it was when
    the method was called. *)
Inductive arg : Type :=
| Nums (x y : number)
| Rec (xy : XY.t number).

(** [typeof xXY == 'number' ? xXY : xXY.x] *)
Definition arg_x (a : arg) : number :=
  match a with Nums x _ => x | Rec xy => XY.x xy end.

(** [typeof xXY == 'number' ? y! : xXY.y] *)
Definition arg_y (a : arg) : number :=
  match a with Nums _ y => y | Rec xy => XY.y xy end.

(** ** The XY classes

    [U16XY] and [I4XY] are two instantiations of one template: every
    mutating method is

      [this.#x = C(f(this.#x)); this.#y = C(g(this.#y)); return this]

    for a coercion [C] of the scalar module and an operation on each
    component. *)

Inductive policy : Type := Cast | Ceil | Clamp | Floor | Round | Trunc.

Inductive operator : Type := Add | Sub | Mul | Div | Max | Min | Assign.

Section Class.
Context {S : Scalar.t}.

(** [U16(...)], [U16.ceil(...)], ... *)
Definition coercion (p : policy) : number -> result number :=
  match p with
  | Cast => Scalar.cast
  | Ceil => Scalar.ceil
  | Clamp => Scalar.clamp
  | Floor => Scalar.floor
  | Round => Scalar.round
  | Trunc => Scalar.trunc
  end.

(** What an operator computes from a component [v] and the argument's
    matching component [a], before coercion. *)
Definition compute (o : operator) (v a : number) : number :=
  match o with
  | Add => (v + a)%js
  | Sub => (v - a)%js
  | Mul => (v * a)%js
  | Div => (v / a)%js
  | Max => JS.max v a
  | Min => JS.min v a
  | Assign => a
  end.

(** The body shared by the mutating methods: the two assignments in
    sequence, then [return this]. *)
Definition mutate (C : number -> result number) (f g : number -> number)
    (this : loc) : M loc :=
  let* vx := read_x this in
  let* cx := lift (C (f vx)) in
  do write_x this cx in
  let* vy := read_y this in
  let* cy := lift (C (g vy)) in
  do write_y this cy in
  ret this.

(** [constructor(xXY, y?)]: both fields are cast; the instance only
    becomes reachable when both casts went through. *)
Definition constructor (a : arg) : M loc :=
  let* cx := lift (Scalar.cast (arg_x a)) in
  let* cy := lift (Scalar.cast (arg_y a)) in
  alloc (XY.Make cx cy).

(** [static ceil], [static clamp], [static floor], [static round],
    [static trunc]: [new this(C(x), C(y))]. *)
Definition factory (p : policy) (a : arg) : M loc :=
  let* cx := lift (coercion p (arg_x a)) in
  let* cy := lift (coercion p (arg_y a)) in
  constructor (Nums cx cy).

(** [add], [addCeil], ..., [set], [setTrunc]: operator [o] under policy [p]. *)
Definition method (o : operator) (p : policy) (this : loc) (a : arg) : M loc :=
  mutate (coercion p)
         (fun v => compute o v (arg_x a))
         (fun v => compute o v (arg_y a)) this.

(** [abs] under policy [p]. *)
Definition abs_with (p : policy) (this : loc) : M loc :=
  mutate (coercion p) JS.abs JS.abs this.

(** [get area], [get areaNum] *)
Definition areaNum (this : loc) : M number :=
  let* vx := read_x this in
  let* vy := read_y this in
  ret (vx * vy)%js.

Definition area_with (p : policy) (this : loc) : M number :=
  let* n := areaNum this in
  lift (coercion p n).

(** [get dotNum], [get dot], [get dotClamp] of [I4XY] *)
Definition dotNum (this : loc) (a : arg) : M number :=
  let* vx := read_x this in
  let* vy := read_y this in
  ret (vx * arg_x a + vy * arg_y a)%js.

Definition dot_with (p : policy) (this : loc) (a : arg) : M number :=
  let* n := dotNum this a in
  lift (coercion p n).

(** [copy()]: [new U16XY(this.#x, this.#y)] *)
Definition copy (this : loc) : M loc :=
  let* vx := read_x this in
  let* vy := read_y this in
  constructor (Nums vx vy).

(** [eq(xXY, y?)] *)
Definition eq (this : loc) (a : arg) : M bool :=
  let* vx := read_x this in
  let* vy := read_y this in
  ret ((vx === arg_x a)%js && (vy === arg_y a)%js).

(** [get x], [get y] *)
Definition get_x (this : loc) : M number := read_x this.
Definition get_y (this : loc) : M number := read_y this.

(** [set x(x)], [set y(y)]: the argument is stored as it comes. *)
Definition set_x (this : loc) (x : number) : M unit := write_x this x.
Definition set_y (this : loc) (y : number) : M unit := write_y this y.

(** [U16XY.toJSON()]: [{ x: this.#x, y: this.#y }] *)
Definition toJSON (this : loc) : M (XY.t number) :=
  let* vx := read_x this in
  let* vy := read_y this in
  ret (XY.Make vx vy).

(** [I4XY.toJSON()]: a field equal to zero is left out. *)
Definition toJSON_sparse (this : loc) : M XYJSON.t :=
  let* vx := read_x this in
  let* vy := read_y this in
  ret (XYJSON.Make (if (vx === Fin 0)%js then None else Some vx)
                   (if (vy === Fin 0)%js then None else Some vy)).

(** [I4XY.fromJSON(json)]: [new this(json.x ?? 0, json.y ?? 0)] *)
Definition fromJSON (json : XYJSON.t) : M loc :=
  constructor (Nums (default (Fin 0) (XYJSON.x json))
                    (default (Fin 0) (XYJSON.y json))).

(** A call of a mutating method. *)
Inductive call : Type :=
| Binary (o : operator) (p : policy) (a : arg)
| Unary (p : policy).

Definition invoke (c : call) (this : loc) : M loc :=
  match c with
  | Binary o p a => method o p this a
  | Unary p => abs_with p this
  end.

End Class.

(** [class U16XY implements IntegralXY<U16>] (src/2d/xy/u16-xy.ts): the
    policies are Cast, Ceil, Floor, Round and Trunc, and [absClamp] and
    [areaClamp] go through [U16.trunc].  The [magnitude] getters take a
    square root and are left out. *)
Module U16XY.

Definition constructor : arg -> M loc := constructor (S := U16).
Definition ceil : arg -> M loc := factory (S := U16) Ceil.
Definition floor : arg -> M loc := factory (S := U16) Floor.
Definition round : arg -> M loc := factory (S := U16) Round.
Definition trunc : arg -> M loc := factory (S := U16) Trunc.
Definition abs : loc -> M loc := abs_with (S := U16) Cast.
Definition absClamp : loc -> M loc := abs_with (S := U16) Trunc.
Definition add : loc -> arg -> M loc := method (S := U16) Add Cast.
Definition addCeil : loc -> arg -> M loc := method (S := U16) Add Ceil.
Definition addFloor : loc -> arg -> M loc := method (S := U16) Add Floor.
Definition addRound : loc -> arg -> M loc := method (S := U16) Add Round.
Definition addTrunc : loc -> arg -> M loc := method (S := U16) Add Trunc.
Definition div : loc -> arg -> M loc := method (S := U16) Div Cast.
Definition divCeil : loc -> arg -> M loc := method (S := U16) Div Ceil.
Definition divFloor : loc -> arg -> M loc := method (S := U16) Div Floor.
Definition divRound : loc -> arg -> M loc := method (S := U16) Div Round.
Definition divTrunc : loc -> arg -> M loc := method (S := U16) Div Trunc.
Definition mul : loc -> arg -> M loc := method (S := U16) Mul Cast.
Definition mulCeil : loc -> arg -> M loc := method (S := U16) Mul Ceil.
Definition mulFloor : loc -> arg -> M loc := method (S := U16) Mul Floor.
Definition mulRound : loc -> arg -> M loc := method (S := U16) Mul Round.
Definition mulTrunc : loc -> arg -> M loc := method (S := U16) Mul Trunc.
Definition sub : loc -> arg -> M loc := method (S := U16) Sub Cast.
Definition subCeil : loc -> arg -> M loc := method (S := U16) Sub Ceil.
Definition subFloor : loc -> arg -> M loc := method (S := U16) Sub Floor.
Definition subRound : loc -> arg -> M loc := method (S := U16) Sub Round.
Definition subTrunc : loc -> arg -> M loc := method (S := U16) Sub Trunc.
Definition max : loc -> arg -> M loc := method (S := U16) Max Cast.
Definition maxCeil : loc -> arg -> M loc := method (S := U16) Max Ceil.
Definition maxFloor : loc -> arg -> M loc := method (S := U16) Max Floor.
Definition maxRound : loc -> arg -> M loc := method (S := U16) Max Round.
Definition maxTrunc : loc -> arg -> M loc := method (S := U16) Max Trunc.
Definition min : loc -> arg -> M loc := method (S := U16) Min Cast.
Definition minCeil : loc -> arg -> M loc := method (S := U16) Min Ceil.
Definition minFloor : loc -> arg -> M loc := method (S := U16) Min Floor.
Definition minRound : loc -> arg -> M loc := method (S := U16) Min Round.
Definition minTrunc : loc -> arg -> M loc := method (S := U16) Min Trunc.
Definition set : loc -> arg -> M loc := method (S := U16) Assign Cast.
Definition setCeil : loc -> arg -> M loc := method (S := U16) Assign Ceil.
Definition setFloor : loc -> arg -> M loc := method (S := U16) Assign Floor.
Definition setRound : loc -> arg -> M loc := method (S := U16) Assign Round.
Definition setTrunc : loc -> arg -> M loc := method (S := U16) Assign Trunc.
Definition area : loc -> M number := area_with (S := U16) Cast.
Definition areaClamp : loc -> M number := area_with (S := U16) Trunc.
Definition areaNum : loc -> M number := areaNum.
Definition copy : loc -> M loc := copy (S := U16).
Definition eq : loc -> arg -> M bool := eq.
Definition toJSON : loc -> M (XY.t number) := toJSON.
Definition get_x : loc -> M number := get_x.
Definition set_x : loc -> number -> M unit := set_x.
Definition get_y : loc -> M number := get_y.
Definition set_y : loc -> number -> M unit := set_y.

End U16XY.

(** [class I4XY implements IntegralXY<I4>]: the policies are Cast, Ceil,
    Clamp, Floor and Round; [toJSON] is sparse and [fromJSON] fills the
    absent fields with zero.  The [len] getters take a square root and
    are left out. *)
Module I4XY.

Definition constructor : arg -> M loc := constructor (S := I4).
Definition ceil : arg -> M loc := factory (S := I4) Ceil.
Definition clamp : arg -> M loc := factory (S := I4) Clamp.
Definition floor : arg -> M loc := factory (S := I4) Floor.
Definition round : arg -> M loc := factory (S := I4) Round.
Definition fromJSON : XYJSON.t -> M loc := fromJSON (S := I4).
Definition construct (this : loc) : arg -> M loc := constructor.
Definition constructCeil (this : loc) : arg -> M loc := ceil.
Definition constructClamp (this : loc) : arg -> M loc := clamp.
Definition constructFloor (this : loc) : arg -> M loc := floor.
Definition constructRound (this : loc) : arg -> M loc := round.
Definition dot : loc -> arg -> M number := dot_with (S := I4) Cast.
Definition dotClamp : loc -> arg -> M number := dot_with (S := I4) Clamp.
Definition dotNum : loc -> arg -> M number := dotNum.
Definition abs : loc -> M loc := abs_with (S := I4) Cast.
Definition absClamp : loc -> M loc := abs_with (S := I4) Clamp.
Definition add : loc -> arg -> M loc := method (S := I4) Add Cast.
Definition addCeil : loc -> arg -> M loc := method (S := I4) Add Ceil.
Definition addClamp : loc -> arg -> M loc := method (S := I4) Add Clamp.
Definition addFloor : loc -> arg -> M loc := method (S := I4) Add Floor.
Definition addRound : loc -> arg -> M loc := method (S := I4) Add Round.
Definition div : loc -> arg -> M loc := method (S := I4) Div Cast.
Definition divCeil : loc -> arg -> M loc := method (S := I4) Div Ceil.
Definition divClamp : loc -> arg -> M loc := method (S := I4) Div Clamp.
Definition divFloor : loc -> arg -> M loc := method (S := I4) Div Floor.
Definition divRound : loc -> arg -> M loc := method (S := I4) Div Round.
Definition mul : loc -> arg -> M loc := method (S := I4) Mul Cast.
Definition mulCeil : loc -> arg -> M loc := method (S := I4) Mul Ceil.
Definition mulClamp : loc -> arg -> M loc := method (S := I4) Mul Clamp.
Definition mulFloor : loc -> arg -> M loc := method (S := I4) Mul Floor.
Definition mulRound : loc -> arg -> M loc := method (S := I4) Mul Round.
Definition sub : loc -> arg -> M loc := method (S := I4) Sub Cast.
Definition subCeil : loc -> arg -> M loc := method (S := I4) Sub Ceil.
Definition subClamp : loc -> arg -> M loc := method (S := I4) Sub Clamp.
Definition subFloor : loc -> arg -> M loc := method (S := I4) Sub Floor.
Definition subRound : loc -> arg -> M loc := method (S := I4) Sub Round.
Definition max : loc -> arg -> M loc := method (S := I4) Max Cast.
Definition maxCeil : loc -> arg -> M loc := method (S := I4) Max Ceil.
Definition maxClamp : loc -> arg -> M loc := method (S := I4) Max Clamp.
Definition maxFloor : loc -> arg -> M loc := method (S := I4) Max Floor.
Definition maxRound : loc -> arg -> M loc := method (S := I4) Max Round.
Definition min : loc -> arg -> M loc := method (S := I4) Min Cast.
Definition minCeil : loc -> arg -> M loc := method (S := I4) Min Ceil.
Definition minClamp : loc -> arg -> M loc := method (S := I4) Min Clamp.
Definition minFloor : loc -> arg -> M loc := method (S := I4) Min Floor.
Definition minRound : loc -> arg -> M loc := method (S := I4) Min Round.
Definition set : loc -> arg -> M loc := method (S := I4) Assign Cast.
Definition setCeil : loc -> arg -> M loc := method (S := I4) Assign Ceil.
Definition setClamp : loc -> arg -> M loc := method (S := I4) Assign Clamp.
Definition setFloor : loc -> arg -> M loc := method (S := I4) Assign Floor.
Definition setRound : loc -> arg -> M loc := method (S := I4) Assign Round.
Definition area : loc -> M number := area_with (S := I4) Cast.
Definition areaClamp : loc -> M number := area_with (S := I4) Clamp.
Definition areaNum : loc -> M number := areaNum.
Definition copy : loc -> M loc := copy (S := I4).
Definition eq : loc -> arg -> M bool := eq.
Definition toJSON : loc -> M XYJSON.t := toJSON_sparse.
Definition get_x : loc -> M number := get_x.
Definition set_x : loc -> number -> M unit := set_x.
Definition get_y : loc -> M number := get_y.
Definition set_y : loc -> number -> M unit := set_y.

End I4XY.

(** ** Colors (src/utils/color.ts) *)

(** [ToInt32]: the operand of a bitwise operator, wrapped to 32 bits and
    read as a signed integer. *)
Definition to_int32 (n : Z) : Z :=
  ((n + 2 ^ 31) mod 2 ^ 32 - 2 ^ 31)%Z.

(** [(color >> k) & 0xff] *)
Definition channel (color : Z) (k : Z) : Z :=
  Z.land (Z.shiftr (to_int32 color) k) 255.

(** [colorIntToFloats(color)] *)
Definition colorIntToFloats (color : Z) : number * number * number * number :=
  ((JS.of_Z (channel color 24) / JS.of_Z 255)%js,
   (JS.of_Z (channel color 16) / JS.of_Z 255)%js,
   (JS.of_Z (channel color 8) / JS.of_Z 255)%js,
   (JS.of_Z (channel color 0) / JS.of_Z 255)%js).

(** ** Vocabulary of the statements *)

(** The number lies within the limits of the kind. *)
Definition within (K : kind) (v : number) : Prop :=
  exists q, v = Fin q /\ kmin K <= q <= kmax K.

(** The rounding policies and the [Math] function each one applies. *)
Definition is_rounding (p : policy) : bool :=
  match p with
  | Ceil | Floor | Round | Trunc => true
  | Cast | Clamp => false
  end.

Definition rounding_of (p : policy) : number -> number :=
  match p with
  | Ceil => JS.ceil
  | Floor => JS.floor
  | Round => JS.round
  | Trunc => JS.trunc
  | Cast | Clamp => fun r => r
  end.

(** What each rounding policy asks of the whole number [z] it makes of
    [q]: the least whole number not below [q] for the ceiling, the
    greatest not above it for the floor, a whole number no further than
    one half from it for the nearest one (whichever way a tie goes), and
    the floor or the ceiling, whichever is nearer to zero, for the
    truncation. *)
Definition rounds_to (p : policy) (q : Q) (z : Z) : Prop :=
  match p with
  | Ceil => inject_Z z - 1 < q /\ q <= inject_Z z
  | Floor => inject_Z z <= q /\ q < inject_Z z + 1
  | Round => q - (1 # 2) <= inject_Z z /\ inject_Z z <= q + (1 # 2)
  | Trunc =>
      (0 <= q -> inject_Z z <= q /\ q < inject_Z z + 1) /\
      (q < 0 -> inject_Z z - 1 < q /\ q <= inject_Z z)
  | Cast | Clamp => False
  end.

(** What a call assigns to [#x] and to [#y], given the instance it
    finds: the coerced results of the two assignments. *)
Definition target_x {S : Scalar.t} (c : call) (o : XY.t number)
  : result number :=
  match c with
  | Binary op p a => coercion p (compute op (XY.x o) (arg_x a))
  | Unary p => coercion p (JS.abs (XY.x o))
  end.

Definition target_y {S : Scalar.t} (c : call) (o : XY.t number)
  : result number :=
  match c with
  | Binary op p a => coercion p (compute op (XY.y o) (arg_y a))
  | Unary p => coercion p (JS.abs (XY.y o))
  end.

(** The invariant of an instance: both fields are scalar values. *)
Definition valid_xy (K : kind) (o : XY.t number) : bool :=
  is_scalar K (XY.x o) && is_scalar K (XY.y o).

(** Each rounding moves a number by less than one. *)
Definition within_one (f : Q -> Z) : Prop :=
  forall q, q - 1 < inject_Z (f q) /\ inject_Z (f q) < q + 1.

(** What [fromJSON] reads back from a sparse field. *)
Definition revived (v : number) : number :=
  default (Fin 0) (if (v === Fin 0)%js then None else Some v).

(** Four channels compared with [===], one by one. *)
Definition floats_eqb (t u : number * number * number * number) : bool :=
  let '(a, b, c, d) := t in
  let '(a', b', c', d') := u in
  (a === a')%js && (b === b')%js && (c === c')%js && (d === d')%js.

(** A rounding that leaves the whole numbers alone. *)
Definition fixes_whole (f : Q -> Z) : Prop :=
  forall q, JS.Qwhole q = true -> inject_Z (f q) == q.

(** ** The release script (bin/publish.ts)

    The script talks to the outside through [Deno.args], two file
    operations, child processes, [prompt] and [console.error].  What the
    outside answers is a parameter; each thing the script does is
    recorded, with the answer it got, in a log. *)

Module Publish.
Import String Ascii.
Local Open Scope string_scope.

(** JavaScript values, as far as [typeof] tells them apart.  An array is
    an object as well: beside its items it carries whatever named
    properties were given to it. *)
Unset Elimination Schemes.
Inductive value : Type :=
| VUndefined
| VNull
| VBoolean (b : bool)
| VNumber (n : number)
| VString (s : string)
| VSymbol
| VFunction
| VObject (fields : list (string * value))
| VArray (items : list value) (fields : list (string * value)).
Set Elimination Schemes.

Definition typeof (v : value) : string :=
  match v with
  | VUndefined => "undefined"
  | VNull => "object"
  | VBoolean _ => "boolean"
  | VNumber _ => "number"
  | VString _ => "string"
  | VSymbol => "symbol"
  | VFunction => "function"
  | VObject _ | VArray _ _ => "object"
  end.

(** [val == null]: null and undefined only. *)
Definition nullish (v : value) : bool :=
  match v with
  | VUndefined | VNull => true
  | _ => false
  end.

(** [Obj.is(val)], later named [isObj]:
    [val != null && typeof val === 'object']. *)
Definition isObj (val : value) : bool :=
  negb (nullish val) && (typeof val =? "object").

Fixpoint lookup_field (key : string) (fields : list (string * value))
  : value :=
  match fields with
  | nil => VUndefined
  | (k, v) :: rest => if k =? key then v else lookup_field key rest
  end.

(** [val.key] where [key] is a name, neither an index nor [length], and
    [val] is an object, the only values the script reads a property of
    ([isPackage] has returned before it reads one of anything else). *)
Definition get (val : value) (key : string) : value :=
  match val with
  | VObject fields | VArray _ fields => lookup_field key fields
  | _ => VUndefined
  end.

(** [val.key = v] on an object: the property keeps its place when it is
    there and is added last when it is not. *)
Fixpoint store_field (key : string) (v : value)
    (fields : list (string * value)) : list (string * value) :=
  match fields with
  | nil => (key, v) :: nil
  | (k, w) :: rest =>
      if k =? key then (k, v) :: rest else (k, w) :: store_field key v rest
  end.

Definition set (val : value) (key : string) (v : value) : value :=
  match val with
  | VObject fields => VObject (store_field key v fields)
  | VArray items fields => VArray items (store_field key v fields)
  | _ => val
  end.

(** [function isPackage(val)] *)
Definition isPackage (val : value) : bool :=
  if negb (isObj val) then false
  else (typeof (get val "version") =? "string") &&
       (typeof (get val "name") =? "string").

(** The text of a value known to be a string. *)
Definition text_of (v : value) : string :=
  match v with VString s => s | _ => "" end.

(** [const releaseTypes = new Set([...])] *)
Definition releaseTypes : list string :=
  "pre" :: "major" :: "premajor" :: "minor" :: "preminor" :: "patch"
        :: "prepatch" :: "prerelease" :: nil.

(** [function isReleaseType(str)]: [releaseTypes.has(str)] *)
Definition isReleaseType (str : string) : bool :=
  existsb (String.eqb str) releaseTypes.

(** [args.split(' ')] *)
Fixpoint split_on (sep : ascii) (s : string) : list string :=
  match s with
  | EmptyString => EmptyString :: nil
  | String c rest =>
      if Ascii.eqb c sep then EmptyString :: split_on sep rest
      else match split_on sep rest with
           | nil => String c EmptyString :: nil
           | w :: ws => String c w :: ws
           end
  end.

(** Whether a character occurs in a string. *)
Fixpoint occurs (c : ascii) (s : string) : bool :=
  match s with
  | EmptyString => false
  | String d rest => Ascii.eqb d c || occurs c rest
  end.

(** The double quote. *)
Definition dquote : string := String (ascii_of_nat 34) EmptyString.

(** What a child process answers: [{ ok, text }]. *)
Record answer : Type := Answer { ok : bool; text : string }.

(** What the script did, with what came back. *)
Inductive event : Type :=
| ConsoleError (msg : string)
| Prompt (msg : string)
| ReadTextFile (path : string) (content : option string)
| WriteTextFile (path content : string) (done : bool)
| Run (cmd : list string) (out : option answer).

(** The log, the latest event first. *)
Definition log : Type := list event.

(** The outside and the library functions the script imports.  A [None]
    or a [false] stands for an exception thrown by the call. *)
Record outside : Type := Outside {
  args : list string;
  readTextFile : string -> log -> option string;
  writeTextFile : string -> string -> log -> bool;
  run : list string -> log -> option answer;
  JSON_parse : string -> option value;
  JSON_stringify : value -> string;
  semver_inc : string -> string -> option string;
  isBlank : string -> bool;
  trim : string -> string;
  split_whitespace : string -> list string
}.

(** How a run ends: with a value, or with an exception nobody catches. *)
Inductive ending (A : Type) : Type :=
| Done (a : A)
| Uncaught.
Arguments Done {A} a.
Arguments Uncaught {A}.

Definition IO (A : Type) : Type := log -> ending A * log.

Definition pure {A} (a : A) : IO A := fun l => (Done a, l).

Definition andThen {A B} (c : IO A) (k : A -> IO B) : IO B :=
  fun l =>
    match c l with
    | (Done a, l') => k a l'
    | (Uncaught, l') => (Uncaught, l')
    end.

Notation "'let!' v := c 'in' k" := (andThen c (fun v => k))
  (at level 10, v name, c at level 100, k at level 200).
Notation "'do!' c 'in' k" := (andThen c (fun _ => k))
  (at level 10, c at level 100, k at level 200).

Section Script.
Variable W : outside.

Definition console_error (msg : string) : IO unit :=
  fun l => (Done tt, ConsoleError msg :: l).

Definition prompt (msg : string) : IO unit :=
  fun l => (Done tt, Prompt msg :: l).

Definition read_text_file (path : string) : IO string :=
  fun l =>
    match readTextFile W path l with
    | Some content => (Done content, ReadTextFile path (Some content) :: l)
    | None => (Uncaught, ReadTextFile path None :: l)
    end.

Definition write_text_file (path content : string) : IO unit :=
  fun l =>
    if writeTextFile W path content l
    then (Done tt, WriteTextFile path content true :: l)
    else (Uncaught, WriteTextFile path content false :: l).

(** [Deno.run({ cmd, stdout: 'piped' })], its status and its output. *)
Definition run_process (cmd : list string) : IO answer :=
  fun l =>
    match run W cmd l with
    | Some a => (Done a, Run cmd (Some a) :: l)
    | None => (Uncaught, Run cmd None :: l)
    end.

Definition parse (text : string) : IO value :=
  fun l =>
    match JSON_parse W text with
    | Some v => (Done v, l)
    | None => (Uncaught, l)
    end.

(** [async function git(args)] and [async function deno(args)] *)
Definition git (args : string) : IO answer :=
  run_process ("git" :: split_on " " args).

Definition deno (args : string) : IO answer :=
  run_process ("deno" :: split_on " " args).

(** [async function main()] *)
Definition main : IO Z :=
  let supportedReleaseTypesMsg :=
    "Release type must be one of " ++ concat ", " releaseTypes ++ "." in
  match hd_error (args W) with
  | None =>
      do! console_error
            ("Missing release type argument. " ++ supportedReleaseTypesMsg) in
      pure 1%Z
  | Some releaseType =>
  if negb (isReleaseType releaseType) then
    do! console_error
          ("Unsupported release type, " ++ dquote ++ releaseType ++ dquote
             ++ ". " ++ supportedReleaseTypesMsg) in
    pure 1%Z
  else
  let! content := read_text_file "package.json" in
  let! pkg := parse content in
  if negb (isPackage pkg) then
    do! console_error "package.json missing name or version properties." in
    pure 1%Z
  else
  let version := text_of (get pkg "version") in
  match semver_inc W version releaseType with
  | None =>
      do! console_error
            ("Cannot compute next " ++ releaseType
               ++ " semantic version from " ++ version ++ ".") in
      pure 1%Z
  | Some nextVer =>
  let! result := git "status -z" in
  do! (if negb (ok result) || negb (isBlank W (text result)) then
         prompt "Uncommitted changes detected. <enter> to continue, <ctrl-c> to cancel:"
       else pure tt) in
  let! result := git "remote update" in
  if negb (ok result) then
    do! console_error
          "Unable to update from remote. Check connectivity and try again." in
    pure 1%Z
  else
  let! result := git "rev-parse --abbrev-ref @" in
  let branch := trim W (text result) in
  if negb (ok result) || (branch =? "") then
    do! console_error "The active branch cannot be identified." in
    pure 1%Z
  else
  let! result := git ("rev-list -n1 @..origin/" ++ branch) in
  if negb (ok result) || negb (isBlank W (text result)) then
    do! console_error
          ("The active branch is behind origin/" ++ branch
             ++ ". Pull and try again.") in
    pure 1%Z
  else
  do! prompt "Test the release. <enter> to continue, <ctrl-c> to cancel:" in
  let! result := git "tag --list --sort version:refname v*" in
  if negb (ok result) then
    do! console_error "Failed to list tagged versions." in
    pure 1%Z
  else
  let gitVers := split_whitespace W (trim W (text result)) in
  if existsb (fun ver => ("v" ++ nextVer) =? ver) gitVers then
    do! console_error ("Git tag v" ++ nextVer ++ " is unavailable.") in
    pure 1%Z
  else
  let pkg := set pkg "version" (VString nextVer) in
  do! write_text_file "package.json" (JSON_stringify W pkg) in
  let! result := deno "fmt package.json" in
  if negb (ok result) then
    do! console_error "Cannot format package.json." in
    pure 1%Z
  else
  let! result := git "add package.json" in
  if negb (ok result) then
    do! console_error "Cannot stage package.json." in
    pure 1%Z
  else
  let! result := git ("commit --message v" ++ nextVer) in
  if negb (ok result) then
    do! console_error "Cannot commit package.json." in
    pure 1%Z
  else
  do! prompt
        ("Ready to publish v" ++ nextVer
           ++ ". Amend commit with any changes wanted "
           ++ "before tagging. <enter> to continue, <ctrl-c> to cancel:") in
  let! result := git ("tag v" ++ nextVer) in
  if negb (ok result) then
    do! console_error ("Cannot tag v" ++ nextVer ++ ".") in
    pure 1%Z
  else
  let! result := git ("push origin " ++ branch ++ " v" ++ nextVer) in
  if negb (ok result) then
    do! console_error
          ("Cannot publish " ++ branch ++ " and v" ++ nextVer
             ++ ". Check connectivity and try "
             ++ "`git push origin '" ++ branch ++ "' 'v" ++ nextVer ++ "'`.") in
    pure 1%Z
  else
  pure 0%Z
  end
  end.

End Script.

(** What the script asked of the outside that can change something: the
    processes it started and the file it wrote. *)
Inductive action : Type :=
| Started (cmd : list string)
| Wrote (path content : string).

Fixpoint actions (l : list event) : list action :=
  match l with
  | nil => nil
  | Run cmd _ :: rest => Started cmd :: actions rest
  | WriteTextFile path content _ :: rest => Wrote path content :: actions rest
  | _ :: rest => actions rest
  end.

(** The steps of a release of version [nextVer] from [branch], in
    order, [content] being the new text of package.json. *)
Definition steps (branch nextVer content : string) : list action :=
  Started ("git" :: split_on " " "status -z")
  :: Started ("git" :: split_on " " "remote update")
  :: Started ("git" :: split_on " " "rev-parse --abbrev-ref @")
  :: Started ("git" :: split_on " " ("rev-list -n1 @..origin/" ++ branch))
  :: Started ("git" :: split_on " " "tag --list --sort version:refname v*")
  :: Wrote "package.json" content
  :: Started ("deno" :: split_on " " "fmt package.json")
  :: Started ("git" :: split_on " " "add package.json")
  :: Started ("git" :: split_on " " ("commit --message v" ++ nextVer))
  :: Started ("git" :: split_on " " ("tag v" ++ nextVer))
  :: Started ("git" :: split_on " " ("push origin " ++ branch ++ " v" ++ nextVer))
  :: nil.

Fixpoint same_words (a b : list string) : bool :=
  match a, b with
  | nil, nil => true
  | x :: a', y :: b' => (x =? y) && same_words a' b'
  | _, _ => false
  end.

(** A process that failed, [git status] apart, whose failure the script
    puts up with. *)
Definition failed (e : event) : bool :=
  match e with
  | Run cmd (Some a) =>
      negb (ok a) &&
      negb (same_words cmd ("git" :: split_on " " "status -z"))
  | _ => false
  end.

Definition is_error (e : event) : bool :=
  match e with ConsoleError _ => true | _ => false end.

(** An outside where everything goes well, to run the script on: the
    branch is [main], no tag is taken, and the first argument and the
    text of package.json are as given. *)
Definition calm (arg0 : list string) (pkg : value) : outside := {|
  args := arg0;
  readTextFile := fun _ _ => Some "{}";
  writeTextFile := fun _ _ _ => true;
  run := fun cmd _ =>
    Some (Answer true
            (match cmd with
             | _ :: "rev-parse" :: _ => "main"
             | _ => ""
             end));
  JSON_parse := fun _ => Some pkg;
  JSON_stringify := fun _ => "{}";
  semver_inc := fun _ _ => Some "1.0.1";
  isBlank := fun s => s =? "";
  trim := fun s => s;
  split_whitespace := fun s => s :: nil
|}.

(** The same outside, except that [git commit] fails. *)
Definition commit_fails (arg0 : list string) (pkg : value) : outside := {|
  args := arg0;
  readTextFile := fun _ _ => Some "{}";
  writeTextFile := fun _ _ _ => true;
  run := fun cmd _ =>
    Some (Answer (match cmd with
                  | _ :: "commit" :: _ => false
                  | _ => true
                  end)
                 (match cmd with
                  | _ :: "rev-parse" :: _ => "main"
                  | _ => ""
                  end));
  JSON_parse := fun _ => Some pkg;
  JSON_stringify := fun _ => "{}";
  semver_inc := fun _ _ => Some "1.0.1";
  isBlank := fun s => s =? "";
  trim := fun s => s;
  split_whitespace := fun s => s :: nil
|}.

Definition ooz_package : value :=
  VObject (("name", VString "ooz") :: ("version", VString "1.0.0") :: nil).

End Publish.

(** * Properties *)

(** Linear arithmetic over the rationals, the integers injected into
    them taken as atoms. *)
Ltac hide_injections :=
  repeat match goal with
  | H : context [inject_Z ?z] |- _ =>
      let x := fresh "iz" in let E := fresh "E" in
      remember (inject_Z z) as x eqn:E in *; clear E
  | |- context [inject_Z ?z] =>
      let x := fresh "iz" in let E := fresh "E" in
      remember (inject_Z z) as x eqn:E in *; clear E
  end.
Ltac qlra := hide_injections; lra.

(** ** Numbers *)

Section NumberFacts.

Lemma Qle_bool_false (p q : Q) : Qle_bool p q = false -> q < p.
Proof.
  intros H. apply Qnot_le_lt. intros Hle.
  apply Qle_bool_iff in Hle. congruence.
Qed.

Lemma Qle_bool_true (p q : Q) : p <= q -> Qle_bool p q = true.
Proof. apply Qle_bool_iff. Qed.

Lemma Qle_bool_lt_false (p q : Q) : q < p -> Qle_bool p q = false.
Proof.
  intros H. destruct (Qle_bool p q) eqn:E; [|reflexivity].
  apply Qle_bool_iff in E. exfalso. exact (Qlt_not_le _ _ H E).
Qed.

Lemma Qwhole_inject_Z (z : Z) : JS.Qwhole (inject_Z z) = true.
Proof.
  unfold JS.Qwhole. rewrite Qfloor_Z. apply Qeq_bool_iff. reflexivity.
Qed.

Lemma Qwhole_floor (q : Q) : JS.Qwhole q = true -> q == inject_Z (Qfloor q).
Proof. unfold JS.Qwhole. apply Qeq_bool_iff. Qed.

Lemma Qwhole_ceiling (q : Q) : JS.Qwhole q = true -> q == inject_Z (Qceiling q).
Proof.
  intros H. apply Qwhole_floor in H.
  rewrite H at 2. rewrite Qceiling_Z. exact H.
Qed.

Lemma Qsign_pos (q : Q) : 0 < q -> JS.Qsign q = Lt.
Proof. intros H. unfold JS.Qsign. apply Qlt_alt. exact H. Qed.

Lemma Qsign_zero (q : Q) : q == 0 -> JS.Qsign q = Eq.
Proof. intros H. unfold JS.Qsign. apply Qeq_alt. symmetry. exact H. Qed.

Lemma eqb_zero (n : number) :
  (n === Fin 0)%js = true -> exists q, n = Fin q /\ q == 0.
Proof.
  destruct n as [q| | |]; simpl; try discriminate.
  intros H. apply Qeq_bool_iff in H. eauto.
Qed.

Lemma eqb_sym (a b : number) : (a === b)%js = (b === a)%js.
Proof.
  destruct a as [p| | |], b as [q| | |]; simpl; try reflexivity.
  destruct (Qeq_bool p q) eqn:E1, (Qeq_bool q p) eqn:E2; try reflexivity.
  - apply Qeq_bool_iff, Qeq_sym, Qeq_bool_iff in E1. congruence.
  - apply Qeq_bool_iff, Qeq_sym, Qeq_bool_iff in E2. congruence.
Qed.

Lemma eqb_refl_Fin (q : Q) : (Fin q === Fin q)%js = true.
Proof. simpl. apply Qeq_bool_iff. reflexivity. Qed.

(** A rounding keeps NaN and the infinities and makes a finite number
    whole. *)
Lemma rounding_nan (f : Q -> Z) (n : number) :
  JS.rounding f n = NaN <-> n = NaN.
Proof. destruct n; simpl; split; congruence. Qed.

Lemma rounding_whole (f : Q -> Z) (n : number) (q : Q) :
  JS.rounding f n = Fin q -> JS.Qwhole q = true.
Proof.
  destruct n; simpl; try discriminate.
  intros [= <-]. apply Qwhole_inject_Z.
Qed.

(** Division by a zero never yields a finite number. *)
Lemma div_zero_not_finite (p q : Q) :
  q == 0 -> forall r, (Fin p / Fin q)%js <> Fin r.
Proof.
  intros Hq r. simpl. rewrite (Qsign_zero _ Hq).
  unfold JS.inf_times. destruct (JS.Qsign p); simpl; discriminate.
Qed.

End NumberFacts.

(** ** The coercion calculus *)

Section CoercionFacts.
Variable K : kind.

Lemma valid_kind_le : valid_kind K = true -> kmin K <= kmax K.
Proof.
  unfold valid_kind. intros H. apply andb_prop in H as [H _].
  apply Qle_bool_iff. exact H.
Qed.

Lemma valid_kind_whole :
  valid_kind K = true -> kshape K = Integral ->
  JS.Qwhole (kmin K) = true /\ JS.Qwhole (kmax K) = true.
Proof.
  unfold valid_kind. intros H Hs. rewrite Hs in H.
  apply andb_prop in H as [_ H]. apply andb_prop in H. exact H.
Qed.

(** The limits themselves are scalar values. *)
Lemma min_is_scalar : valid_kind K = true -> is_scalar K (Fin (kmin K)) = true.
Proof.
  intros HK. pose proof (valid_kind_le HK) as Hle.
  unfold is_scalar, in_range.
  rewrite (Qle_bool_true _ _ (Qle_refl _)), (Qle_bool_true _ _ Hle). simpl.
  destruct (kshape K) eqn:Hs; [|reflexivity].
  apply (valid_kind_whole HK Hs).
Qed.

Lemma max_is_scalar : valid_kind K = true -> is_scalar K (Fin (kmax K)) = true.
Proof.
  intros HK. pose proof (valid_kind_le HK) as Hle.
  unfold is_scalar, in_range.
  rewrite (Qle_bool_true _ _ (Qle_refl _)), (Qle_bool_true _ _ Hle). simpl.
  destruct (kshape K) eqn:Hs; [|reflexivity].
  apply (valid_kind_whole HK Hs).
Qed.

(** Cast succeeds exactly on the scalar values, and returns its input. *)
Lemma Cast_scalar (r : number) :
  is_scalar K r = true -> Coercion.Cast K r = Ok r.
Proof.
  destruct r as [q| | |]; simpl; try discriminate.
  intros H. apply andb_prop in H as [-> H].
  destruct (kshape K); [rewrite H|]; reflexivity.
Qed.

Lemma Cast_Ok (r v : number) :
  Coercion.Cast K r = Ok v -> v = r /\ is_scalar K r = true.
Proof.
  destruct r as [q| | |]; simpl; try discriminate.
  destruct (in_range K q); [|discriminate]. simpl.
  destruct (kshape K); [destruct (JS.Qwhole q)|];
    try discriminate; intros [= <-]; split; reflexivity.
Qed.

Lemma Cast_Throw (r : number) (e : error) :
  Coercion.Cast K r = Throw e ->
  is_scalar K r = false /\ (e = RangeViolation \/ e = NonIntegralViolation).
Proof.
  destruct r as [q| | |]; simpl; try (intros [= <-]; split; auto).
  destruct (in_range K q); simpl; [|intros [= <-]; split; auto].
  destruct (kshape K); [destruct (JS.Qwhole q)|];
    try discriminate; intros [= <-]; split; auto.
Qed.

Lemma Cast_out_of_range (q : Q) :
  in_range K q = false -> Coercion.Cast K (Fin q) = Throw RangeViolation.
Proof. intros H. simpl. rewrite H. reflexivity. Qed.

Lemma Cast_not_finite (r : number) :
  (forall q, r <> Fin q) -> Coercion.Cast K r = Throw RangeViolation.
Proof. destruct r as [q| | |]; [intros H; now destruct (H q)|reflexivity..]. Qed.

(** Saturation lands within the limits, unless it is fed NaN. *)
Lemma saturate_is_scalar (n : number) :
  valid_kind K = true ->
  n <> NaN ->
  (kshape K = Integral -> forall q, n = Fin q -> JS.Qwhole q = true) ->
  is_scalar K (Coercion.saturate K n) = true.
Proof.
  intros HK Hn Hw. destruct n as [q| | |]; simpl.
  - destruct (Qle_bool (kmin K) q) eqn:Hlo; simpl; [|now apply min_is_scalar].
    destruct (Qle_bool q (kmax K)) eqn:Hhi; simpl; [|now apply max_is_scalar].
    unfold in_range. rewrite Hlo, Hhi. simpl.
    destruct (kshape K) eqn:Hs; [|reflexivity]. now apply Hw.
  - now apply max_is_scalar.
  - now apply min_is_scalar.
  - congruence.
Qed.

(** A scalar value is left alone by saturation. *)
Lemma saturate_scalar (n : number) :
  is_scalar K n = true -> Coercion.saturate K n = n.
Proof.
  destruct n as [q| | |]; simpl; try discriminate.
  unfold in_range. intros H. apply andb_prop in H as [H _].
  apply andb_prop in H as [-> ->]. reflexivity.
Qed.

Lemma saturate_below (q : Q) :
  q < kmin K -> Coercion.saturate K (Fin q) = Fin (kmin K).
Proof. intros H. simpl. now rewrite (Qle_bool_lt_false _ _ H). Qed.

Lemma saturate_above (q : Q) :
  kmin K <= kmax K -> kmax K < q ->
  Coercion.saturate K (Fin q) = Fin (kmax K).
Proof.
  intros Hle H. simpl.
  assert (Hlo : kmin K <= q) by (apply Qlt_le_weak; eapply Qle_lt_trans; eauto).
  rewrite (Qle_bool_true _ _ Hlo), (Qle_bool_lt_false _ _ H). reflexivity.
Qed.

(** A rounding policy: the rounded number saturated, for everything but
    NaN, which fails the final check. *)
Lemma rounded_Ok (f : Q -> Z) (r : number) :
  valid_kind K = true -> r <> NaN ->
  Coercion.rounded K (JS.rounding f) r
    = Ok (Coercion.saturate K (JS.rounding f r)) /\
  is_scalar K (Coercion.saturate K (JS.rounding f r)) = true.
Proof.
  intros HK Hr.
  assert (Hs : is_scalar K (Coercion.saturate K (JS.rounding f r)) = true).
  { apply saturate_is_scalar; [exact HK| |].
    - intros E. apply rounding_nan in E. contradiction.
    - intros _ q E. exact (rounding_whole _ _ _ E). }
  split; [|exact Hs]. unfold Coercion.rounded. now apply Cast_scalar.
Qed.

Lemma rounded_NaN (f : number -> number) :
  f NaN = NaN -> Coercion.rounded K f NaN = Throw RangeViolation.
Proof. intros H. unfold Coercion.rounded. rewrite H. reflexivity. Qed.

End CoercionFacts.

Section RoundingPolicies.
Variable K : kind.
Hypothesis HK : valid_kind K = true.

Lemma is_scalar_within (v : number) : is_scalar K v = true -> within K v.
Proof.
  destruct v as [q| | |]; simpl; try discriminate.
  unfold in_range. intros H. apply andb_prop in H as [H _].
  apply andb_prop in H as [Hlo Hhi].
  exists q. split; [reflexivity|]. split; now apply Qle_bool_iff.
Qed.

Lemma coercion_rounding (p : policy) (r : number) :
  is_rounding p = true ->
  coercion (S := scalar_of K) p r = Coercion.rounded K (rounding_of p) r.
Proof. destruct p; simpl; try discriminate; reflexivity. Qed.

Lemma ceiling_above_max (q : Q) :
  kmax K < q -> kmax K < inject_Z (Qceiling q).
Proof. intros H. eapply Qlt_le_trans; [exact H|apply Qle_ceiling]. Qed.

Lemma floor_rounds (q : Q) : rounds_to Floor q (Qfloor q).
Proof.
  pose proof (Qfloor_le q). pose proof (Qlt_floor q) as Hlt.
  rewrite inject_Z_plus in Hlt. change (inject_Z 1) with 1 in Hlt.
  split; qlra.
Qed.

Lemma ceiling_rounds (q : Q) : rounds_to Ceil q (Qceiling q).
Proof.
  pose proof (Qle_ceiling q). pose proof (Qceiling_lt q) as Hlt.
  unfold Z.sub in Hlt. rewrite inject_Z_plus, inject_Z_opp in Hlt.
  change (inject_Z 1) with 1 in Hlt.
  split; qlra.
Qed.

Lemma round_rounds (q : Q) : rounds_to Round q (JS.Qround_half_up q).
Proof.
  unfold JS.Qround_half_up.
  destruct (floor_rounds (q + (1 # 2))) as [Hlo Hhi].
  split; qlra.
Qed.

Lemma trunc_rounds (q : Q) : rounds_to Trunc q (JS.Qtrunc q).
Proof.
  unfold JS.Qtrunc. destruct (Qle_bool 0 q) eqn:E; split; intros Hq.
  - apply floor_rounds.
  - apply Qle_bool_iff in E. lra.
  - assert (Qle_bool 0 q = true) by now apply Qle_bool_iff. congruence.
  - apply ceiling_rounds.
Qed.

(** The [Math] function of a rounding policy meets what the policy asks. *)
Lemma rounding_of_rounds (p : policy) :
  is_rounding p = true ->
  exists f, rounding_of p = JS.rounding f /\ forall q, rounds_to p q (f q).
Proof.
  destruct p; simpl; try discriminate; intros _;
    [exists Qceiling|exists Qfloor|exists JS.Qround_half_up|exists JS.Qtrunc];
    (split; [reflexivity|]).
  - exact ceiling_rounds.
  - exact floor_rounds.
  - exact round_rounds.
  - exact trunc_rounds.
Qed.

(** Saturation, case by case. *)
Lemma saturate_cases (q : Q) :
  (q < kmin K -> Coercion.saturate K (Fin q) = Fin (kmin K)) /\
  (kmax K < q -> Coercion.saturate K (Fin q) = Fin (kmax K)) /\
  (kmin K <= q <= kmax K -> Coercion.saturate K (Fin q) = Fin q).
Proof using HK.
  split; [|split].
  - apply saturate_below.
  - apply saturate_above. now apply valid_kind_le.
  - intros [Hlo Hhi]. simpl.
    now rewrite (Qle_bool_true _ _ Hlo), (Qle_bool_true _ _ Hhi).
Qed.

(** C4, amended (on the calculus as the spec words it): for an integral
    kind and every number but NaN, each of Ceil, Floor, Round and Trunc
    returns a scalar value within the limits, which is the whole number
    the rounding makes of the input (the least one not below it, the
    greatest one not above it, a nearest one, the one toward zero),
    saturated afterwards: [min] when that whole number is below [min],
    [max] when it is above [max], the whole number itself otherwise; the
    infinities go to the limit on their side; and the ceiling of anything
    above [max], so also of a number just below [max + 1], is [max]. *)
Theorem round_then_saturate (p : policy) (r : number) :
  kshape K = Integral ->
  is_rounding p = true ->
  r <> NaN ->
  (exists v,
     coercion (S := scalar_of K) p r = Ok v /\
     within K v /\ is_scalar K v = true /\
     match r with
     | Fin q =>
         exists z, rounds_to p q z /\
           (inject_Z z < kmin K -> v = Fin (kmin K)) /\
           (kmax K < inject_Z z -> v = Fin (kmax K)) /\
           (kmin K <= inject_Z z <= kmax K -> v = Fin (inject_Z z))
     | PInf => v = Fin (kmax K)
     | NInf => v = Fin (kmin K)
     | NaN => False
     end) /\
  (forall q, kmax K < q ->
     coercion (S := scalar_of K) Ceil (Fin q) = Ok (Fin (kmax K))).
Proof.
  intros _ Hp Hr. split.
  - rewrite (coercion_rounding _ _ Hp).
    destruct (rounding_of_rounds _ Hp) as (f & -> & Hf).
    destruct (rounded_Ok K f r HK Hr) as [-> Hs].
    eexists. split; [reflexivity|].
    split; [now apply is_scalar_within|]. split; [exact Hs|].
    destruct r as [q| | |]; [|reflexivity|reflexivity|congruence].
    exists (f q). split; [apply Hf|]. apply saturate_cases.
  - intros q Hq. simpl. unfold Coercion.Ceil, Coercion.rounded. simpl JS.ceil.
    rewrite (saturate_above K _ (valid_kind_le K HK) (ceiling_above_max q Hq)).
    apply Cast_scalar. now apply max_is_scalar.
Qed.

End RoundingPolicies.

(** C4, as stated, does not hold of every raw number: on NaN the four
    rounding coercions return no value at all, and the rounding followed
    by the saturation leaves NaN, which is not within the limits. *)
Lemma rounding_of_NaN :
  coercion (S := U16) Ceil NaN = Throw RangeViolation /\
  coercion (S := U16) Floor NaN = Throw RangeViolation /\
  coercion (S := U16) Round NaN = Throw RangeViolation /\
  coercion (S := U16) Trunc NaN = Throw RangeViolation /\
  Coercion.saturate U16_kind (JS.ceil NaN) = NaN /\
  ~ within U16_kind NaN.
Proof.
  repeat split. intros (q & E & _). discriminate E.
Qed.

Lemma round_then_saturate_witness :
  (exists v,
     coercion (S := U16) Ceil (Fin 65535.5) = Ok v /\
     within U16_kind v /\ is_scalar U16_kind v = true /\
     exists z, rounds_to Ceil 65535.5 z /\
       (inject_Z z < 0 -> v = Fin 0) /\
       (65535 < inject_Z z -> v = Fin 65535) /\
       (0 <= inject_Z z <= 65535 -> v = Fin (inject_Z z))) /\
  (forall q, 65535 < q ->
     coercion (S := U16) Ceil (Fin q) = Ok (Fin 65535)).
Proof.
  refine (round_then_saturate U16_kind eq_refl Ceil (Fin 65535.5)
            eq_refl eq_refl _).
  discriminate.
Defined.

(** ** The store and the method template *)

Section StoreFacts.

Lemma lookup_updated (s : store) (this : loc) (o o' : XY.t number) :
  s !! this = Some o -> <[this := o']> s !! this = Some o'.
Proof. intros H. apply list_lookup_insert_eq. exact (lookup_lt_Some _ _ _ H). Qed.

Lemma alloc_lookup (s : store) (o : XY.t number) :
  (s ++ [o]) !! length s = Some o.
Proof. apply list_lookup_middle. reflexivity. Qed.

Lemma alloc_keeps (s : store) (o o' : XY.t number) (l : loc) :
  s !! l = Some o -> (s ++ [o']) !! l = Some o.
Proof. apply lookup_app_l_Some. Qed.

Lemma alloc_fresh (s : store) (o : XY.t number) (l : loc) :
  s !! l = Some o -> l <> length s.
Proof. intros H. apply lookup_lt_Some in H. lia. Qed.

Context {S : Scalar.t}.

(** The three ways out of a mutating method. *)
Lemma mutate_run C f g (this : loc) (s : store) (o : XY.t number) :
  s !! this = Some o ->
  mutate C f g this s =
  match C (f (XY.x o)) with
  | Throw e => (Throw e, s)
  | Ok cx =>
      match C (g (XY.y o)) with
      | Throw e => (Throw e, <[this := XY.Make cx (XY.y o)]> s)
      | Ok cy => (Ok this, <[this := XY.Make cx cy]> s)
      end
  end.
Proof.
  intros H. unfold mutate, bind, read_x, read_y, write_x, write_y, lift, ret.
  rewrite H. destruct (C (f (XY.x o))) as [cx|e]; [|reflexivity].
  rewrite H, (lookup_updated _ _ _ _ H). simpl.
  destruct (C (g (XY.y o))) as [cy|e]; [|reflexivity].
  rewrite (lookup_updated _ _ _ _ H). simpl.
  f_equal. apply (list_insert_insert_eq s this).
Qed.

Lemma mutate_no_instance C f g (this : loc) (s : store) :
  s !! this = None -> mutate C f g this s = (Throw TypeError, s).
Proof.
  intros H. unfold mutate, bind, read_x. rewrite H. reflexivity.
Qed.

Lemma invoke_mutate (c : call) (this : loc) :
  exists C f g,
    invoke c this = mutate C f g this /\
    (forall o, target_x c o = C (f (XY.x o))) /\
    (forall o, target_y c o = C (g (XY.y o))).
Proof.
  destruct c as [op p a|p]; simpl.
  - exists (coercion p), (fun v => compute op v (arg_x a)),
           (fun v => compute op v (arg_y a)). auto.
  - exists (coercion p), JS.abs, JS.abs. auto.
Qed.

Lemma invoke_run (c : call) (this : loc) (s : store) (o : XY.t number) :
  s !! this = Some o ->
  invoke c this s =
  match target_x c o with
  | Throw e => (Throw e, s)
  | Ok cx =>
      match target_y c o with
      | Throw e => (Throw e, <[this := XY.Make cx (XY.y o)]> s)
      | Ok cy => (Ok this, <[this := XY.Make cx cy]> s)
      end
  end.
Proof.
  intros H. destruct (invoke_mutate c this) as (C & f & g & -> & Hx & Hy).
  rewrite Hx, Hy. now apply mutate_run.
Qed.

Lemma constructor_run (a : arg) (s : store) :
  constructor a s =
  match Scalar.cast (arg_x a) with
  | Throw e => (Throw e, s)
  | Ok cx =>
      match Scalar.cast (arg_y a) with
      | Throw e => (Throw e, s)
      | Ok cy => (Ok (length s), s ++ [XY.Make cx cy])
      end
  end.
Proof.
  unfold constructor, bind, lift, alloc.
  destruct (Scalar.cast (arg_x a)); [|reflexivity].
  destruct (Scalar.cast (arg_y a)); reflexivity.
Qed.

End StoreFacts.

(** ** Failure of a mutating method *)

(** C1, as stated, does not hold: [new U16XY(5, 10).add(1, 65535)] throws
    on the second assignment, and by then [x] already is 6. *)
Lemma add_throws_after_x_update :
  U16XY.add 0%nat (Nums (Fin 1) (Fin 65535)) [XY.Make (Fin 5) (Fin 10)]
    = (Throw RangeViolation, [XY.Make (Fin 6) (Fin 10)]) /\
  [XY.Make (Fin 6) (Fin 10)] <> [XY.Make (Fin 5) (Fin 10)].
Proof. split; [reflexivity|discriminate]. Qed.

(** C1, amended: a mutating method that throws does so in one of two
    states.  Either the coercion of the [x] result failed, and the store
    is the prior one; or it succeeded and the coercion of the [y] result
    failed, and then [x] holds its new value while [y] holds its prior
    one.  This is so for every scalar module. *)
Theorem mutation_failure {S : Scalar.t} (c : call) (this : loc)
    (s s' : store) (o : XY.t number) (e : error) :
  s !! this = Some o ->
  invoke c this s = (Throw e, s') ->
  (target_x c o = Throw e /\ s' = s) \/
  (exists cx,
     target_x c o = Ok cx /\ target_y c o = Throw e /\
     s' = <[this := XY.Make cx (XY.y o)]> s).
Proof.
  intros Ho. rewrite (invoke_run c this s o Ho).
  destruct (target_x c o) as [cx|ex].
  - destruct (target_y c o) as [cy|ey]; [discriminate|].
    intros [= <- <-]. right. exists cx. auto.
  - intros [= <- <-]. left. auto.
Qed.

Lemma mutation_failure_witness :
  (target_x (S := U16) (Binary Add Cast (Nums (Fin 1) (Fin 65535)))
            (XY.Make (Fin 5) (Fin 10)) = Throw RangeViolation /\
   [XY.Make (Fin 6) (Fin 10)] = [XY.Make (Fin 5) (Fin 10)]) \/
  (exists cx,
     target_x (S := U16) (Binary Add Cast (Nums (Fin 1) (Fin 65535)))
              (XY.Make (Fin 5) (Fin 10)) = Ok cx /\
     target_y (S := U16) (Binary Add Cast (Nums (Fin 1) (Fin 65535)))
              (XY.Make (Fin 5) (Fin 10)) = Throw RangeViolation /\
     [XY.Make (Fin 6) (Fin 10)]
       = <[0%nat := XY.Make cx (Fin 10)]> [XY.Make (Fin 5) (Fin 10)]).
Proof.
  exact (mutation_failure (S := U16)
           (Binary Add Cast (Nums (Fin 1) (Fin 65535))) 0%nat
           [XY.Make (Fin 5) (Fin 10)] [XY.Make (Fin 6) (Fin 10)]
           (XY.Make (Fin 5) (Fin 10)) RangeViolation eq_refl eq_refl).
Defined.

(** ** Chaining *)

Lemma invoke_returns_this {S : Scalar.t} (c : call) (this r : loc)
    (s s' : store) :
  invoke c this s = (Ok r, s') -> r = this.
Proof.
  destruct (s !! this) as [o|] eqn:Ho.
  - rewrite (invoke_run c this s o Ho).
    destruct (target_x c o); [|discriminate].
    destruct (target_y c o); [|discriminate]. congruence.
  - destruct (invoke_mutate c this) as (C & f & g & -> & _).
    rewrite (mutate_no_instance _ _ _ _ _ Ho). discriminate.
Qed.

Lemma method_Ok (K : kind) (op : operator) (this r : loc) (a : arg)
    (s s' : store) :
  method (S := scalar_of K) op Cast this a s = (Ok r, s') ->
  exists o,
    s !! this = Some o /\ r = this /\
    is_scalar K (compute op (XY.x o) (arg_x a)) = true /\
    is_scalar K (compute op (XY.y o) (arg_y a)) = true /\
    s' = <[this := XY.Make (compute op (XY.x o) (arg_x a))
                           (compute op (XY.y o) (arg_y a))]> s.
Proof.
  unfold method. destruct (s !! this) as [o|] eqn:Ho.
  - rewrite (mutate_run _ _ _ _ _ _ Ho). simpl.
    destruct (Coercion.Cast K (compute op (XY.x o) (arg_x a))) as [cx|] eqn:Ex;
      [|discriminate].
    destruct (Coercion.Cast K (compute op (XY.y o) (arg_y a))) as [cy|] eqn:Ey;
      [|discriminate].
    apply Cast_Ok in Ex as [-> Hx]. apply Cast_Ok in Ey as [-> Hy].
    intros [= <- <-]. exists o. auto.
  - rewrite (mutate_no_instance _ _ _ _ _ Ho). discriminate.
Qed.

(** C8: a mutating method that returns returns [this]; and when
    [vec.set(a, b).add(c, d)] goes through, [vec] holds [(a + c, b + d)],
    the very components of a new vector constructed from them, whose
    construction goes through as well. *)
Theorem set_add_chain (K : kind) (this r : loc) (a b c d : number)
    (s s' : store) :
  (let* v := method (S := scalar_of K) Assign Cast this (Nums a b) in
   method (S := scalar_of K) Add Cast v (Nums c d)) s = (Ok r, s') ->
  (forall (S : Scalar.t) (m : call) (l l' : loc) (t t' : store),
     invoke (S := S) m l t = (Ok l', t') -> l' = l) /\
  r = this /\
  s' !! this = Some (XY.Make (a + c)%js (b + d)%js) /\
  constructor (S := scalar_of K) (Nums (a + c)%js (b + d)%js) s'
    = (Ok (length s'), s' ++ [XY.Make (a + c)%js (b + d)%js]) /\
  (s' ++ [XY.Make (a + c)%js (b + d)%js]) !! length s' = s' !! this.
Proof.
  unfold bind at 1.
  destruct (method Assign Cast this (Nums a b) s) as [[v|e] s1] eqn:E1;
    [|discriminate].
  intros E2.
  apply method_Ok in E1 as (o & Ho & -> & Ha & Hb & ->).
  apply method_Ok in E2 as (o' & Ho' & -> & Hx & Hy & ->).
  rewrite (lookup_updated _ _ _ _ Ho) in Ho'. injection Ho' as <-.
  simpl in *. split; [intros S m l l' t t'; apply invoke_returns_this|].
  split; [reflexivity|].
  assert (Hs' : <[this := XY.Make (a + c)%js (b + d)%js]>
                  (<[this := XY.Make a b]> s) !! this
                = Some (XY.Make (a + c)%js (b + d)%js)).
  { eapply lookup_updated. eapply lookup_updated. exact Ho. }
  split; [exact Hs'|]. split.
  - rewrite constructor_run. simpl.
    rewrite (Cast_scalar K _ Hx), (Cast_scalar K _ Hy). reflexivity.
  - rewrite Hs'. apply alloc_lookup.
Qed.

Lemma set_add_chain_witness :
  (forall (S : Scalar.t) (m : call) (l l' : loc) (t t' : store),
     invoke (S := S) m l t = (Ok l', t') -> l' = l) /\
  0%nat = 0%nat /\
  [XY.Make (Fin 4) (Fin 6)] !! 0%nat
    = Some (XY.Make (Fin 1 + Fin 3)%js (Fin 2 + Fin 4)%js) /\
  constructor (S := U16) (Nums (Fin 1 + Fin 3)%js (Fin 2 + Fin 4)%js)
              [XY.Make (Fin 4) (Fin 6)]
    = (Ok (length [XY.Make (Fin 4) (Fin 6)]),
       [XY.Make (Fin 4) (Fin 6)]
         ++ [XY.Make (Fin 1 + Fin 3)%js (Fin 2 + Fin 4)%js]) /\
  ([XY.Make (Fin 4) (Fin 6)]
     ++ [XY.Make (Fin 1 + Fin 3)%js (Fin 2 + Fin 4)%js])
    !! length [XY.Make (Fin 4) (Fin 6)]
    = [XY.Make (Fin 4) (Fin 6)] !! 0%nat.
Proof.
  exact (set_add_chain U16_kind 0%nat 0%nat (Fin 1) (Fin 2) (Fin 3) (Fin 4)
           [XY.Make (Fin 0) (Fin 0)] [XY.Make (Fin 4) (Fin 6)] eq_refl).
Defined.

(** ** The property setters *)

(** C9, as stated, does not hold: [v.x = 70000] on a [U16XY] stores
    70000, which the cast rejects, and the instance is no longer valid. *)
Lemma set_x_stores_out_of_range :
  U16XY.set_x 0%nat (Fin 70000) [XY.Make (Fin 5) (Fin 10)]
    = (Ok tt, [XY.Make (Fin 70000) (Fin 10)]) /\
  Scalar.cast (t := U16) (Fin 70000) = Throw RangeViolation /\
  valid_xy U16_kind (XY.Make (Fin 70000) (Fin 10)) = false.
Proof. repeat split. Qed.

(** C9, amended: the setters run no coercion; they store their argument
    as it is and never throw on an instance.  The invariant survives the
    assignment when the argument is a scalar value of the kind already,
    which is what the parameter types [U16] and [I4] ask of the caller. *)
Theorem setters_store_verbatim (K : kind) (this : loc) (s : store)
    (o : XY.t number) (n : number) :
  s !! this = Some o ->
  set_x this n s = (Ok tt, <[this := XY.Make n (XY.y o)]> s) /\
  set_y this n s = (Ok tt, <[this := XY.Make (XY.x o) n]> s) /\
  (valid_xy K o = true -> is_scalar K n = true ->
   valid_xy K (XY.Make n (XY.y o)) = true /\
   valid_xy K (XY.Make (XY.x o) n) = true).
Proof.
  intros Ho. unfold set_x, set_y, write_x, write_y. rewrite Ho.
  split; [reflexivity|]. split; [reflexivity|].
  unfold valid_xy. simpl. intros Hv Hn.
  apply andb_prop in Hv as [Hx Hy]. now rewrite Hx, Hy, Hn.
Qed.

Lemma setters_store_verbatim_witness :
  set_x 0%nat (Fin 7) [XY.Make (Fin 5) (Fin 10)]
    = (Ok tt, <[0%nat := XY.Make (Fin 7) (Fin 10)]> [XY.Make (Fin 5) (Fin 10)]) /\
  set_y 0%nat (Fin 7) [XY.Make (Fin 5) (Fin 10)]
    = (Ok tt, <[0%nat := XY.Make (Fin 5) (Fin 7)]> [XY.Make (Fin 5) (Fin 10)]) /\
  (valid_xy U16_kind (XY.Make (Fin 5) (Fin 10)) = true ->
   is_scalar U16_kind (Fin 7) = true ->
   valid_xy U16_kind (XY.Make (Fin 7) (Fin 10)) = true /\
   valid_xy U16_kind (XY.Make (Fin 5) (Fin 7)) = true).
Proof.
  exact (setters_store_verbatim U16_kind 0%nat [XY.Make (Fin 5) (Fin 10)]
           (XY.Make (Fin 5) (Fin 10)) (Fin 7) eq_refl).
Defined.

(** ** The 16-bit example *)

(** C3, as stated, does not hold: after
    [new U16XY(5, 10).addCeil(65534.2, -3.7)] the vector does not
    compare equal to [(65535, 6)]. *)
Lemma addCeil_example_is_not_6 :
  (let* v := U16XY.constructor (Nums (Fin 5) (Fin 10)) in
   let* w := U16XY.addCeil v (Nums (Fin 65534.2) (Fin (-3.7))) in
   U16XY.eq w (Nums (Fin 65535) (Fin 6))) []
  = (Ok false, [XY.Make (Fin 65535) (Fin 7)]).
Proof. reflexivity. Qed.

(** C3, amended: [new U16XY(5, 10).addCeil(65534.2, -3.7)] yields
    [(65535, 7)]: [x] adds to 65539.2, whose ceiling 65540 saturates to
    65535, and [y] adds to 6.3, whose ceiling is 7. *)
Theorem addCeil_example :
  (let* v := U16XY.constructor (Nums (Fin 5) (Fin 10)) in
   U16XY.addCeil v (Nums (Fin 65534.2) (Fin (-3.7)))) []
  = (Ok 0%nat, [XY.Make (Fin 65535) (Fin 7)]) /\
  JS.ceil (Fin 5 + Fin 65534.2)%js = Fin 65540 /\
  Coercion.saturate U16_kind (Fin 65540) = Fin 65535 /\
  JS.ceil (Fin 10 + Fin (-3.7))%js = Fin 7 /\
  (let* v := U16XY.constructor (Nums (Fin 5) (Fin 10)) in
   let* w := U16XY.addCeil v (Nums (Fin 65534.2) (Fin (-3.7))) in
   U16XY.eq w (Nums (Fin 65535) (Fin 7))) []
  = (Ok true, [XY.Make (Fin 65535) (Fin 7)]).
Proof. repeat split. Qed.

(** ** Division by zero *)

Section DivisionByZero.
Variable K : kind.

Lemma is_scalar_Fin (v : number) :
  is_scalar K v = true -> exists q, v = Fin q.
Proof. destruct v as [q| | |]; simpl; try discriminate. eauto. Qed.

(** The quotient by a zero is infinite or NaN, and the cast rejects it
    as it rejects any number out of range. *)
Lemma Cast_div_zero (v a : number) :
  is_scalar K v = true -> (a === Fin 0)%js = true ->
  Coercion.Cast K (v / a)%js = Throw RangeViolation.
Proof.
  intros Hv Ha. apply is_scalar_Fin in Hv as [p ->].
  apply eqb_zero in Ha as (q & -> & Hq).
  apply Cast_not_finite. now apply div_zero_not_finite.
Qed.

(** Whatever a coercion throws is one of the two errors of the cast. *)
Lemma coercion_Throw (p : policy) (r : number) (e : error) :
  coercion (S := scalar_of K) p r = Throw e ->
  e = RangeViolation \/ e = NonIntegralViolation.
Proof.
  intros H.
  destruct p; simpl in H;
    unfold Coercion.Ceil, Coercion.Clamp, Coercion.Floor, Coercion.Round,
           Coercion.Trunc, Coercion.rounded in H;
    try destruct (kshape K);
    apply Cast_Throw in H as [_ H]; exact H.
Qed.

(** C2, amended: no division-by-zero error exists.  Under [div] a zero
    divisor makes the quotient infinite or NaN, which the cast rejects:
    the method throws, never with a division-by-zero error; [y] keeps its
    prior value, and when the zero divisor is the [x] one the error is
    the range error and the store is the prior one.  Under every policy
    of the family a failure is never a division-by-zero error and leaves
    [y] at its prior value. *)
Theorem div_by_zero (this : loc) (s : store) (o : XY.t number) (a : arg) :
  s !! this = Some o ->
  valid_xy K o = true ->
  (arg_x a === Fin 0)%js || (arg_y a === Fin 0)%js = true ->
  (exists e s',
     method (S := scalar_of K) Div Cast this a s = (Throw e, s') /\
     e <> DivisionByZero /\
     XY.y <$> s' !! this = Some (XY.y o) /\
     ((arg_x a === Fin 0)%js = true -> e = RangeViolation /\ s' = s)) /\
  (forall p e s',
     method (S := scalar_of K) Div p this a s = (Throw e, s') ->
     e <> DivisionByZero /\ XY.y <$> s' !! this = Some (XY.y o)).
Proof.
  intros Ho Hv Hz. apply andb_prop in Hv as [Hx Hy].
  split.
  - change (method (S := scalar_of K) Div Cast this a)
      with (invoke (S := scalar_of K) (Binary Div Cast a) this).
    rewrite (invoke_run _ _ _ _ Ho). simpl.
    destruct (arg_x a === Fin 0)%js eqn:Zx.
    + rewrite (Cast_div_zero _ _ Hx Zx).
      exists RangeViolation, s. rewrite Ho. repeat split; discriminate.
    + simpl in Hz.
      destruct (Coercion.Cast K (XY.x o / arg_x a)%js) as [cx|e] eqn:Ex.
      * rewrite (Cast_div_zero _ _ Hy Hz).
        exists RangeViolation, (<[this := XY.Make cx (XY.y o)]> s).
        rewrite (lookup_updated _ _ _ _ Ho).
        repeat split; discriminate.
      * exists e, s. rewrite Ho.
        apply Cast_Throw in Ex as [_ [-> | ->]]; repeat split; discriminate.
  - intros p e s'.
    change (method (S := scalar_of K) Div p this a)
      with (invoke (S := scalar_of K) (Binary Div p a) this).
    rewrite (invoke_run _ _ _ _ Ho).
    destruct (target_x (Binary Div p a) o) as [cx|ex] eqn:Ex.
    + destruct (target_y (Binary Div p a) o) as [cy|ey] eqn:Ey;
        [discriminate|].
      intros [= <- <-]. rewrite (lookup_updated _ _ _ _ Ho).
      split; [|reflexivity].
      apply coercion_Throw in Ey as [-> | ->]; discriminate.
    + intros [= <- <-]. rewrite Ho. split; [|reflexivity].
      apply coercion_Throw in Ex as [-> | ->]; discriminate.
Qed.

End DivisionByZero.

(** C2, as stated, does not hold.  [new U16XY(4, 4).div(0, 2)] throws the
    range error of the cast, which is not a division-by-zero error;
    [div(2, 0)] throws it after [x] became 2; and [divCeil(0, 2)] does
    not end in a division-by-zero error either. *)
Lemma div_zero_examples :
  U16XY.div 0%nat (Nums (Fin 0) (Fin 2)) [XY.Make (Fin 4) (Fin 4)]
    = (Throw RangeViolation, [XY.Make (Fin 4) (Fin 4)]) /\
  RangeViolation <> DivisionByZero /\
  (let* v := U16XY.constructor (Nums (Fin 4) (Fin 4)) in
   let* w := U16XY.div v (Nums (Fin 2) (Fin 0)) in
   ret tt) []
    = (Throw RangeViolation, [XY.Make (Fin (4 / 2)) (Fin 4)]) /\
  (Fin (4 / 2) === Fin 2)%js = true /\
  (Fin (4 / 2) === Fin 4)%js = false /\
  fst (U16XY.divCeil 0%nat (Nums (Fin 0) (Fin 2)) [XY.Make (Fin 4) (Fin 4)])
    <> Throw DivisionByZero.
Proof. repeat split; discriminate. Qed.

Lemma div_by_zero_witness :
  (exists e s',
     method (S := U16) Div Cast 0%nat (Nums (Fin 0) (Fin 2))
            [XY.Make (Fin 4) (Fin 4)] = (Throw e, s') /\
     e <> DivisionByZero /\
     XY.y <$> s' !! 0%nat = Some (Fin 4) /\
     ((Fin 0 === Fin 0)%js = true ->
      e = RangeViolation /\ s' = [XY.Make (Fin 4) (Fin 4)])) /\
  (forall p e s',
     method (S := U16) Div p 0%nat (Nums (Fin 0) (Fin 2))
            [XY.Make (Fin 4) (Fin 4)] = (Throw e, s') ->
     e <> DivisionByZero /\ XY.y <$> s' !! 0%nat = Some (Fin 4)) /\
  method (S := U16) Div Cast 0%nat (Nums (Fin 0) (Fin 2))
         [XY.Make (Fin 4) (Fin 4)]
    = (Throw RangeViolation, [XY.Make (Fin 4) (Fin 4)]).
Proof.
  split; [|split].
  - apply (div_by_zero U16_kind 0%nat [XY.Make (Fin 4) (Fin 4)]
             (XY.Make (Fin 4) (Fin 4)) (Nums (Fin 0) (Fin 2)));
      reflexivity.
  - apply (div_by_zero U16_kind 0%nat [XY.Make (Fin 4) (Fin 4)]
             (XY.Make (Fin 4) (Fin 4)) (Nums (Fin 0) (Fin 2)));
      reflexivity.
  - reflexivity.
Defined.

(** ** Clamp *)

Section ClampFacts.
Variable K : kind.
Hypothesis HK : valid_kind K = true.

Lemma in_range_Qeq (p q : Q) :
  p == q -> in_range K p = true -> in_range K q = true.
Proof.
  unfold in_range. intros E H. apply andb_prop in H as [Hlo Hhi].
  apply Qle_bool_iff in Hlo, Hhi.
  apply andb_true_intro. split; apply Qle_bool_iff; rewrite <- E; assumption.
Qed.

Lemma Qtrunc_whole (q : Q) : JS.Qwhole q = true -> inject_Z (JS.Qtrunc q) == q.
Proof.
  intros H. unfold JS.Qtrunc. destruct (Qle_bool 0 q); symmetry.
  - now apply Qwhole_floor.
  - now apply Qwhole_ceiling.
Qed.

(** Without rounding, saturation alone yields a scalar value of a
    fractional kind. *)
Lemma clamp_fractional (r : number) :
  kshape K = Fractional -> r <> NaN ->
  Coercion.rounded K (fun n => n) r = Ok (Coercion.saturate K r) /\
  is_scalar K (Coercion.saturate K r) = true.
Proof.
  intros Hs Hr.
  assert (H : is_scalar K (Coercion.saturate K r) = true).
  { apply saturate_is_scalar; [exact HK|exact Hr|]. congruence. }
  split; [|exact H]. unfold Coercion.rounded. now apply Cast_scalar.
Qed.

(** C6, amended (on the calculus as the spec words it): for every number
    but NaN, Clamp returns a scalar value within the limits; and on a
    number that is a scalar value already, Clamp and Cast both return it:
    Cast the number itself, Clamp a number [==] to it, and the number
    itself when the kind is fractional. *)
Theorem clamp_within (r : number) :
  (r <> NaN ->
   exists v, Coercion.Clamp K r = Ok v /\
             within K v /\ is_scalar K v = true) /\
  (is_scalar K r = true ->
   Coercion.Cast K r = Ok r /\
   exists v, Coercion.Clamp K r = Ok v /\ (v === r)%js = true /\
             (kshape K = Fractional -> v = r)).
Proof using HK.
  split.
  - intros Hn. unfold Coercion.Clamp. destruct (kshape K) eqn:Hs.
    + destruct (rounded_Ok K JS.Qtrunc r HK Hn) as [E Hv].
      unfold JS.trunc. rewrite E. eexists. split; [reflexivity|].
      split; [now apply is_scalar_within|exact Hv].
    + destruct (clamp_fractional r Hs Hn) as [E Hv].
      rewrite E. eexists. split; [reflexivity|].
      split; [now apply is_scalar_within|exact Hv].
  - intros Hr. split; [now apply Cast_scalar|].
    unfold Coercion.Clamp. destruct (kshape K) eqn:Hs.
    + destruct r as [q| | |]; try discriminate.
      pose proof Hr as Hr'. simpl in Hr'. rewrite Hs in Hr'.
      apply andb_prop in Hr' as [Hin Hw].
      pose proof (Qtrunc_whole q Hw) as Et.
      assert (Hs' : is_scalar K (Fin (inject_Z (JS.Qtrunc q))) = true).
      { simpl. rewrite Hs, Qwhole_inject_Z.
        rewrite (in_range_Qeq q _ (Qeq_sym _ _ Et) Hin). reflexivity. }
      exists (Fin (inject_Z (JS.Qtrunc q))).
      unfold Coercion.rounded. simpl JS.trunc.
      rewrite (saturate_scalar K _ Hs'), (Cast_scalar K _ Hs').
      split; [reflexivity|]. split; [|discriminate].
      simpl. apply Qeq_bool_iff. exact Et.
    + exists r. unfold Coercion.rounded.
      rewrite (saturate_scalar K _ Hr), (Cast_scalar K _ Hr).
      split; [reflexivity|]. split; [|reflexivity].
      apply is_scalar_Fin in Hr as [q ->]. apply eqb_refl_Fin.
Qed.

End ClampFacts.

(** C6, as stated, does not hold of every raw value: Clamp returns no
    value on NaN, for an integral kind as for a fractional one, and
    saturation alone leaves NaN, which is not within the limits. *)
Lemma clamp_of_NaN :
  Coercion.Clamp U16_kind NaN = Throw RangeViolation /\
  Coercion.Clamp (Kind Fractional 0 1) NaN = Throw RangeViolation /\
  valid_kind U16_kind = true /\
  valid_kind (Kind Fractional 0 1) = true /\
  Coercion.saturate U16_kind NaN = NaN /\
  ~ within U16_kind NaN.
Proof.
  repeat split. intros (q & E & _). discriminate E.
Qed.

Lemma clamp_within_witness :
  (exists v, Coercion.Clamp I4_kind (Fin 7.5) = Ok v /\
             within I4_kind v /\ is_scalar I4_kind v = true) /\
  (Coercion.Cast I4_kind (Fin 7) = Ok (Fin 7) /\
   exists v, Coercion.Clamp I4_kind (Fin 7) = Ok v /\
             (v === Fin 7)%js = true /\
             (kshape I4_kind = Fractional -> v = Fin 7)).
Proof.
  split.
  - apply (clamp_within I4_kind eq_refl (Fin 7.5)). discriminate.
  - apply (clamp_within I4_kind eq_refl (Fin 7)). reflexivity.
Defined.

(** ** Construction at the limits *)

Section Boundary.
Variable K : kind.
Hypothesis HK : valid_kind K = true.

Lemma floor_within_one : within_one Qfloor.
Proof.
  intros q. pose proof (Qfloor_le q). pose proof (Qlt_floor q) as Hlt.
  rewrite inject_Z_plus in Hlt. change (inject_Z 1) with 1 in Hlt.
  split; qlra.
Qed.

Lemma ceiling_within_one : within_one Qceiling.
Proof.
  intros q. pose proof (Qle_ceiling q). pose proof (Qceiling_lt q) as Hlt.
  unfold Z.sub in Hlt. rewrite inject_Z_plus, inject_Z_opp in Hlt.
  change (inject_Z 1) with 1 in Hlt.
  split; qlra.
Qed.

Lemma round_within_one : within_one JS.Qround_half_up.
Proof.
  intros q. unfold JS.Qround_half_up.
  destruct (floor_within_one (q + (1 # 2))).
  pose proof (Qfloor_le (q + (1 # 2))). split; qlra.
Qed.

Lemma trunc_within_one : within_one JS.Qtrunc.
Proof.
  intros q. unfold JS.Qtrunc. destruct (Qle_bool 0 q).
  - apply floor_within_one.
  - apply ceiling_within_one.
Qed.

Lemma rounded_below (f : Q -> Z) :
  within_one f ->
  Coercion.rounded K (JS.rounding f) (Fin (kmin K - 1)) = Ok (Fin (kmin K)).
Proof.
  intros Hf. unfold Coercion.rounded. simpl JS.rounding.
  rewrite saturate_below by (destruct (Hf (kmin K - 1)); qlra).
  apply Cast_scalar, min_is_scalar, HK.
Qed.

Lemma rounded_above (f : Q -> Z) :
  within_one f ->
  Coercion.rounded K (JS.rounding f) (Fin (kmax K + 1)) = Ok (Fin (kmax K)).
Proof.
  intros Hf. unfold Coercion.rounded. simpl JS.rounding.
  rewrite saturate_above;
    [|apply valid_kind_le, HK|destruct (Hf (kmax K + 1)); qlra].
  apply Cast_scalar, max_is_scalar, HK.
Qed.

Lemma identity_below :
  Coercion.rounded K (fun n => n) (Fin (kmin K - 1)) = Ok (Fin (kmin K)).
Proof.
  unfold Coercion.rounded. rewrite saturate_below by lra.
  apply Cast_scalar, min_is_scalar, HK.
Qed.

Lemma identity_above :
  Coercion.rounded K (fun n => n) (Fin (kmax K + 1)) = Ok (Fin (kmax K)).
Proof.
  unfold Coercion.rounded.
  rewrite saturate_above; [|apply valid_kind_le, HK|lra].
  apply Cast_scalar, max_is_scalar, HK.
Qed.

(** Every policy but Cast saturates one below [min] and one above [max]. *)
Lemma coercion_below (p : policy) :
  p <> Cast ->
  coercion (S := scalar_of K) p (Fin (kmin K - 1)) = Ok (Fin (kmin K)).
Proof.
  intros Hp. destruct p; try congruence; simpl;
    unfold Coercion.Ceil, Coercion.Floor, Coercion.Round, Coercion.Trunc,
           Coercion.Clamp.
  - apply rounded_below, ceiling_within_one.
  - destruct (kshape K);
      [apply rounded_below, trunc_within_one|apply identity_below].
  - apply rounded_below, floor_within_one.
  - apply rounded_below, round_within_one.
  - apply rounded_below, trunc_within_one.
Qed.

Lemma coercion_above (p : policy) :
  p <> Cast ->
  coercion (S := scalar_of K) p (Fin (kmax K + 1)) = Ok (Fin (kmax K)).
Proof.
  intros Hp. destruct p; try congruence; simpl;
    unfold Coercion.Ceil, Coercion.Floor, Coercion.Round, Coercion.Trunc,
           Coercion.Clamp.
  - apply rounded_above, ceiling_within_one.
  - destruct (kshape K);
      [apply rounded_above, trunc_within_one|apply identity_above].
  - apply rounded_above, floor_within_one.
  - apply rounded_above, round_within_one.
  - apply rounded_above, trunc_within_one.
Qed.

Lemma below_out_of_range : in_range K (kmin K - 1) = false.
Proof.
  unfold in_range. rewrite Qle_bool_lt_false by lra. reflexivity.
Qed.

Lemma above_out_of_range : in_range K (kmax K + 1) = false.
Proof.
  unfold in_range. rewrite (Qle_bool_lt_false (kmax K + 1)) by lra.
  apply andb_false_r.
Qed.

(** C5: the constructor takes [min] and [max] as they are; it throws the
    range error on [min - 1] and on [max + 1], in either position next to
    a scalar value; and every factory, whatever its policy, builds
    [(min, max)] from [(min - 1, max + 1)] and [(max, min)] from
    [(max + 1, min - 1)]. *)
Theorem construct_at_limits (s : store) :
  constructor (S := scalar_of K) (Nums (Fin (kmin K)) (Fin (kmax K))) s
    = (Ok (length s), s ++ [XY.Make (Fin (kmin K)) (Fin (kmax K))]) /\
  (forall out v,
     out = Fin (kmin K - 1) \/ out = Fin (kmax K + 1) ->
     is_scalar K v = true ->
     constructor (S := scalar_of K) (Nums out v) s
       = (Throw RangeViolation, s) /\
     constructor (S := scalar_of K) (Nums v out) s
       = (Throw RangeViolation, s)) /\
  (forall p, p <> Cast ->
     factory (S := scalar_of K) p
             (Nums (Fin (kmin K - 1)) (Fin (kmax K + 1))) s
       = (Ok (length s), s ++ [XY.Make (Fin (kmin K)) (Fin (kmax K))]) /\
     factory (S := scalar_of K) p
             (Nums (Fin (kmax K + 1)) (Fin (kmin K - 1))) s
       = (Ok (length s), s ++ [XY.Make (Fin (kmax K)) (Fin (kmin K))])).
Proof using HK.
  pose proof (Cast_scalar K _ (min_is_scalar K HK)) as Cmin.
  pose proof (Cast_scalar K _ (max_is_scalar K HK)) as Cmax.
  split; [|split].
  - rewrite constructor_run. unfold arg_x, arg_y.
    change (@Scalar.cast (scalar_of K)) with (Coercion.Cast K).
    rewrite Cmin, Cmax. reflexivity.
  - intros out v Hout Hv.
    assert (Eout : Coercion.Cast K out = Throw RangeViolation).
    { destruct Hout as [-> | ->]; apply Cast_out_of_range;
        [apply below_out_of_range|apply above_out_of_range]. }
    rewrite !constructor_run. unfold arg_x, arg_y.
    change (@Scalar.cast (scalar_of K)) with (Coercion.Cast K).
    rewrite Eout, (Cast_scalar K _ Hv). split; reflexivity.
  - intros p Hp. unfold factory, bind, lift, arg_x, arg_y.
    rewrite (coercion_below p Hp), (coercion_above p Hp).
    rewrite !constructor_run. unfold arg_x, arg_y.
    change (@Scalar.cast (scalar_of K)) with (Coercion.Cast K).
    rewrite Cmin, Cmax. split; reflexivity.
Qed.

End Boundary.

Lemma construct_at_limits_witness :
  constructor (S := I4) (Nums (Fin (-8)) (Fin 7)) []
    = (Ok 0%nat, [] ++ [XY.Make (Fin (-8)) (Fin 7)]) /\
  (forall out v,
     out = Fin (kmin I4_kind - 1) \/ out = Fin (kmax I4_kind + 1) ->
     is_scalar I4_kind v = true ->
     constructor (S := I4) (Nums out v) [] = (Throw RangeViolation, []) /\
     constructor (S := I4) (Nums v out) [] = (Throw RangeViolation, [])) /\
  (forall p, p <> Cast ->
     factory (S := I4) p
             (Nums (Fin (kmin I4_kind - 1)) (Fin (kmax I4_kind + 1))) []
       = (Ok 0%nat, [] ++ [XY.Make (Fin (-8)) (Fin 7)]) /\
     factory (S := I4) p
             (Nums (Fin (kmax I4_kind + 1)) (Fin (kmin I4_kind - 1))) []
       = (Ok 0%nat, [] ++ [XY.Make (Fin 7) (Fin (-8))])).
Proof. exact (construct_at_limits I4_kind eq_refl []). Defined.

(** ** JSON round trip of [I4XY] *)

Section RoundTrip.

Lemma revived_scalar (v : number) :
  is_scalar I4_kind v = true ->
  is_scalar I4_kind (revived v) = true /\ (revived v === v)%js = true.
Proof.
  intros Hv. unfold revived. destruct (v === Fin 0)%js eqn:Z; simpl.
  - split; [reflexivity|].
    apply eqb_zero in Z as (q & -> & Hq). simpl.
    apply Qeq_bool_iff. symmetry. exact Hq.
  - split; [exact Hv|]. apply is_scalar_Fin in Hv as [q ->].
    apply eqb_refl_Fin.
Qed.

(** C7: for an [I4XY] holding scalar values, [toJSON] leaves out exactly
    the fields equal to zero, [fromJSON] of that JSON goes through and
    builds a new instance, and the new instance is [eq] to the
    original. *)
Theorem fromJSON_toJSON (this : loc) (s : store) (o : XY.t number) :
  s !! this = Some o ->
  valid_xy I4_kind o = true ->
  exists json o',
    I4XY.toJSON this s = (Ok json, s) /\
    (XYJSON.x json = None <-> (XY.x o === Fin 0)%js = true) /\
    (XYJSON.y json = None <-> (XY.y o === Fin 0)%js = true) /\
    (let* j := I4XY.toJSON this in I4XY.fromJSON j) s
      = (Ok (length s), s ++ [o']) /\
    I4XY.eq (length s) (Rec o) (s ++ [o']) = (Ok true, s ++ [o']) /\
    I4XY.eq this (Rec o') (s ++ [o']) = (Ok true, s ++ [o']).
Proof.
  intros Ho Hv. apply andb_prop in Hv as [Hx Hy].
  destruct (revived_scalar _ Hx) as [Hrx Ex].
  destruct (revived_scalar _ Hy) as [Hry Ey].
  exists (XYJSON.Make (if (XY.x o === Fin 0)%js then None else Some (XY.x o))
                      (if (XY.y o === Fin 0)%js then None else Some (XY.y o))),
         (XY.Make (revived (XY.x o)) (revived (XY.y o))).
  assert (Ej : I4XY.toJSON this s
               = (Ok (XYJSON.Make
                        (if (XY.x o === Fin 0)%js then None else Some (XY.x o))
                        (if (XY.y o === Fin 0)%js then None else Some (XY.y o))),
                  s)).
  { unfold I4XY.toJSON, toJSON_sparse, bind, read_x, read_y, ret.
    rewrite Ho. simpl. rewrite Ho. reflexivity. }
  split; [exact Ej|]. split; [|split; [|split; [|split]]].
  - simpl. destruct (XY.x o === Fin 0)%js; split; congruence.
  - simpl. destruct (XY.y o === Fin 0)%js; split; congruence.
  - unfold bind at 1. rewrite Ej.
    unfold I4XY.fromJSON, fromJSON. rewrite constructor_run.
    unfold arg_x, arg_y. cbn [XYJSON.x XYJSON.y].
    fold (revived (XY.x o)). fold (revived (XY.y o)).
    change (@Scalar.cast I4) with (Coercion.Cast I4_kind).
    rewrite (Cast_scalar _ _ Hrx), (Cast_scalar _ _ Hry). reflexivity.
  - unfold I4XY.eq, eq, bind, read_x, read_y, ret.
    rewrite alloc_lookup. simpl. rewrite alloc_lookup. simpl.
    rewrite Ex, Ey. reflexivity.
  - unfold I4XY.eq, eq, bind, read_x, read_y, ret.
    rewrite (alloc_keeps _ _ _ _ Ho). simpl.
    rewrite (alloc_keeps _ _ _ _ Ho). simpl.
    rewrite (eqb_sym (XY.x o)), (eqb_sym (XY.y o)), Ex, Ey. reflexivity.
Qed.

End RoundTrip.

Lemma fromJSON_toJSON_witness :
  exists json o',
    I4XY.toJSON 0%nat [XY.Make (Fin 0) (Fin (-3))] = (Ok json, [XY.Make (Fin 0) (Fin (-3))]) /\
    (XYJSON.x json = None <-> (Fin 0 === Fin 0)%js = true) /\
    (XYJSON.y json = None <-> (Fin (-3) === Fin 0)%js = true) /\
    (let* j := I4XY.toJSON 0%nat in I4XY.fromJSON j) [XY.Make (Fin 0) (Fin (-3))]
      = (Ok 1%nat, [XY.Make (Fin 0) (Fin (-3))] ++ [o']) /\
    I4XY.eq 1%nat (Rec (XY.Make (Fin 0) (Fin (-3))))
            ([XY.Make (Fin 0) (Fin (-3))] ++ [o'])
      = (Ok true, [XY.Make (Fin 0) (Fin (-3))] ++ [o']) /\
    I4XY.eq 0%nat (Rec o') ([XY.Make (Fin 0) (Fin (-3))] ++ [o'])
      = (Ok true, [XY.Make (Fin 0) (Fin (-3))] ++ [o']).
Proof.
  exact (fromJSON_toJSON 0%nat [XY.Make (Fin 0) (Fin (-3))]
           (XY.Make (Fin 0) (Fin (-3))) eq_refl eq_refl).
Defined.

(** ** Colors *)

Section Colors.

Lemma to_int32_wraps (n : Z) :
  exists m, to_int32 n = (n + m * 2 ^ 32)%Z.
Proof.
  exists (- ((n + 2 ^ 31) / 2 ^ 32))%Z. unfold to_int32.
  rewrite Z.mod_eq by lia. lia.
Qed.

Lemma channel_byte (color k : Z) : (0 <= channel color k <= 255)%Z.
Proof.
  unfold channel. change 255%Z with (Z.ones 8).
  rewrite Z.land_ones by lia.
  change (2 ^ 8)%Z with 256%Z.
  change (Z.ones 8) with 255%Z.
  pose proof (Z.mod_pos_bound (Z.shiftr (to_int32 color) k) 256).
  lia.
Qed.

(** A channel is a byte of the color itself, whatever lies beyond the
    lowest 32 bits. *)
Lemma channel_div_mod (color k : Z) :
  (0 <= k <= 24)%Z ->
  channel color k = ((color / 2 ^ k) mod 256)%Z.
Proof.
  intros Hk. unfold channel. change 255%Z with (Z.ones 8).
  rewrite Z.land_ones, Z.shiftr_div_pow2 by lia.
  destruct (to_int32_wraps color) as [m ->].
  replace (m * 2 ^ 32)%Z with (m * 2 ^ (24 - k) * 2 ^ 8 * 2 ^ k)%Z.
  - rewrite Z.div_add by lia.
    change (2 ^ 8)%Z with 256%Z. apply Z.mod_add. lia.
  - rewrite <- !Z.mul_assoc, <- !Z.pow_add_r by lia.
    do 2 f_equal. lia.
Qed.

Lemma byte_over_255 (n : Z) :
  (0 <= n <= 255)%Z ->
  (JS.of_Z n / JS.of_Z 255)%js = Fin (inject_Z n / 255) /\
  0 <= inject_Z n / 255 <= 1.
Proof.
  intros Hn. split; [reflexivity|].
  unfold Qdiv, Qle. simpl. lia.
Qed.

(** C10: each of the four numbers is the matching byte of the color over
    255 and lies between 0 and 1; the byte for a shift of [k] is
    [(color / 2^k) mod 256]; white gives four ones and black four zeros. *)
Theorem colorIntToFloats_channels (color : Z) :
  colorIntToFloats color =
    (Fin (inject_Z (channel color 24) / 255),
     Fin (inject_Z (channel color 16) / 255),
     Fin (inject_Z (channel color 8) / 255),
     Fin (inject_Z (channel color 0) / 255)) /\
  (forall k, 0 <= inject_Z (channel color k) / 255 <= 1) /\
  (forall k, (0 <= k <= 24)%Z ->
     channel color k = ((color / 2 ^ k) mod 256)%Z) /\
  floats_eqb (colorIntToFloats 0xffffffff) (Fin 1, Fin 1, Fin 1, Fin 1) = true /\
  floats_eqb (colorIntToFloats 0) (Fin 0, Fin 0, Fin 0, Fin 0) = true.
Proof.
  split; [reflexivity|]. split; [|split; [|split; reflexivity]].
  - intros k. apply byte_over_255, channel_byte.
  - intros k. apply channel_div_mod.
Qed.

End Colors.

(** * Further properties of the XY classes *)

(** ** What a call touches *)

Section Frame.
Context {S : Scalar.t}.

Lemma mutate_frame C f g (this : loc) (s s' : store) (r : result loc) :
  mutate C f g this s = (r, s') ->
  length s' = length s /\ forall l, l <> this -> s' !! l = s !! l.
Proof.
  destruct (s !! this) as [o|] eqn:Ho.
  - rewrite (mutate_run _ _ _ _ _ _ Ho).
    destruct (C (f (XY.x o))) as [cx|e]; [|intros [= <- <-]; auto].
    destruct (C (g (XY.y o))) as [cy|e]; intros [= <- <-];
      (split; [apply length_insert|]);
      intros l Hl; apply list_lookup_insert_ne; congruence.
  - rewrite (mutate_no_instance _ _ _ _ _ Ho). intros [= <- <-]. auto.
Qed.

(** X1: A mutating method, whether it returns or throws, allocates nothing
    and leaves every instance but its own as it was. *)
Theorem invoke_frame (c : call) (this : loc) (s s' : store)
    (r : result loc) :
  invoke c this s = (r, s') ->
  length s' = length s /\ forall l, l <> this -> s' !! l = s !! l.
Proof.
  destruct (invoke_mutate c this) as (C & f & g & -> & _).
  apply mutate_frame.
Qed.

End Frame.

Lemma invoke_frame_witness :
  length [XY.Make (Fin 6) (Fin 10); XY.Make (Fin 1) (Fin 2)]
    = length [XY.Make (Fin 5) (Fin 10); XY.Make (Fin 1) (Fin 2)] /\
  forall l, l <> 0%nat ->
    [XY.Make (Fin 6) (Fin 10); XY.Make (Fin 1) (Fin 2)] !! l
      = [XY.Make (Fin 5) (Fin 10); XY.Make (Fin 1) (Fin 2)] !! l.
Proof.
  exact (invoke_frame (S := U16)
           (Binary Add Cast (Nums (Fin 1) (Fin 65535))) 0%nat
           [XY.Make (Fin 5) (Fin 10); XY.Make (Fin 1) (Fin 2)]
           [XY.Make (Fin 6) (Fin 10); XY.Make (Fin 1) (Fin 2)]
           (Throw RangeViolation) eq_refl).
Defined.

(** ** The invariant *)

Section Invariant.
Variable K : kind.

(** Whatever a coercion returns is a scalar value. *)
Lemma coercion_Ok_scalar (p : policy) (r v : number) :
  coercion (S := scalar_of K) p r = Ok v -> is_scalar K v = true.
Proof.
  assert (H : forall n, Coercion.Cast K n = Ok v -> is_scalar K v = true).
  { intros n E. apply Cast_Ok in E as [-> E]. exact E. }
  destruct p; simpl;
    unfold Coercion.Ceil, Coercion.Floor, Coercion.Round, Coercion.Trunc,
           Coercion.Clamp, Coercion.rounded;
    try apply H.
  destruct (kshape K); apply H.
Qed.

Lemma target_x_scalar (c : call) (o : XY.t number) (v : number) :
  target_x (S := scalar_of K) c o = Ok v -> is_scalar K v = true.
Proof. destruct c; simpl; apply coercion_Ok_scalar. Qed.

Lemma target_y_scalar (c : call) (o : XY.t number) (v : number) :
  target_y (S := scalar_of K) c o = Ok v -> is_scalar K v = true.
Proof. destruct c; simpl; apply coercion_Ok_scalar. Qed.

(** X2: A valid instance stays valid through every mutating method, whether
    the method returns or throws between its two assignments. *)
Theorem invoke_keeps_valid (c : call) (this : loc) (s s' : store)
    (o : XY.t number) (r : result loc) :
  s !! this = Some o ->
  valid_xy K o = true ->
  invoke (S := scalar_of K) c this s = (r, s') ->
  exists o', s' !! this = Some o' /\ valid_xy K o' = true.
Proof.
  intros Ho Hv. apply andb_prop in Hv as [Hx Hy].
  rewrite (invoke_run c this s o Ho).
  destruct (target_x c o) as [cx|e] eqn:Ex.
  - apply target_x_scalar in Ex.
    destruct (target_y c o) as [cy|e] eqn:Ey; intros [= <- <-].
    + apply target_y_scalar in Ey.
      exists (XY.Make cx cy). rewrite (lookup_updated _ _ _ _ Ho).
      unfold valid_xy. simpl. now rewrite Ex, Ey.
    + exists (XY.Make cx (XY.y o)). rewrite (lookup_updated _ _ _ _ Ho).
      unfold valid_xy. simpl. now rewrite Ex, Hy.
  - intros [= <- <-]. exists o. unfold valid_xy. now rewrite Hx, Hy.
Qed.

(** X3: A construction that goes through, by the constructor or by a static
    factory, yields one new valid instance, at a reference not used
    before, and leaves the instances there were as they were. *)
Theorem construction_valid (p : policy) (a : arg) (s s' : store) (l : loc) :
  constructor (S := scalar_of K) a s = (Ok l, s') \/
  factory (S := scalar_of K) p a s = (Ok l, s') ->
  s !! l = None /\
  exists o, s' = s ++ [o] /\ s' !! l = Some o /\ valid_xy K o = true.
Proof.
  assert (Hc : forall b, constructor (S := scalar_of K) b s = (Ok l, s') ->
            s !! l = None /\
            exists o, s' = s ++ [o] /\ s' !! l = Some o /\
                      valid_xy K o = true).
  { intros b. rewrite constructor_run.
    change (@Scalar.cast (scalar_of K)) with (Coercion.Cast K).
    destruct (Coercion.Cast K (arg_x b)) as [cx|] eqn:Ex; [|discriminate].
    destruct (Coercion.Cast K (arg_y b)) as [cy|] eqn:Ey; [|discriminate].
    apply Cast_Ok in Ex as [-> Hx]. apply Cast_Ok in Ey as [-> Hy].
    intros [= <- <-]. split; [apply lookup_ge_None_2; reflexivity|].
    exists (XY.Make (arg_x b) (arg_y b)).
    split; [reflexivity|]. split; [apply alloc_lookup|].
    unfold valid_xy. simpl. now rewrite Hx, Hy. }
  intros [E|E]; [exact (Hc _ E)|].
  unfold factory, bind, lift in E.
  destruct (coercion p (arg_x a)) as [cx|]; [|discriminate].
  destruct (coercion p (arg_y a)) as [cy|]; [|discriminate].
  exact (Hc _ E).
Qed.

End Invariant.

Lemma invoke_keeps_valid_witness :
  exists o',
    [XY.Make (Fin 6) (Fin 10)] !! 0%nat = Some o' /\
    valid_xy U16_kind o' = true.
Proof.
  exact (invoke_keeps_valid U16_kind
           (Binary Add Cast (Nums (Fin 1) (Fin 65535))) 0%nat
           [XY.Make (Fin 5) (Fin 10)] [XY.Make (Fin 6) (Fin 10)]
           (XY.Make (Fin 5) (Fin 10)) (Throw RangeViolation)
           eq_refl eq_refl eq_refl).
Defined.

Lemma construction_valid_witness :
  ([] : store) !! 0%nat = None /\
  exists o, [XY.Make (Fin 65535) (Fin 0)] = [] ++ [o] /\
            [XY.Make (Fin 65535) (Fin 0)] !! 0%nat = Some o /\
            valid_xy U16_kind o = true.
Proof.
  exact (construction_valid U16_kind Ceil
           (Nums (Fin 70000.5) (Fin (-3))) []
           [XY.Make (Fin 65535) (Fin 0)] 0%nat (or_intror eq_refl)).
Defined.

(** ** Copies, comparison and plain records *)

Section Reading.
Context {S : Scalar.t}.

Lemma copy_run (this : loc) (s : store) (o : XY.t number) :
  s !! this = Some o ->
  copy this s = constructor (Nums (XY.x o) (XY.y o)) s.
Proof.
  intros Ho. unfold copy, bind, read_x, read_y.
  rewrite Ho. simpl. rewrite Ho. reflexivity.
Qed.

Lemma eq_run (this : loc) (a : arg) (s : store) (o : XY.t number) :
  s !! this = Some o ->
  eq this a s
  = (Ok ((XY.x o === arg_x a)%js && (XY.y o === arg_y a)%js), s).
Proof.
  intros Ho. unfold eq, bind, read_x, read_y, ret.
  rewrite Ho. simpl. rewrite Ho. reflexivity.
Qed.

Lemma toJSON_run (this : loc) (s : store) (o : XY.t number) :
  s !! this = Some o -> toJSON this s = (Ok o, s).
Proof.
  intros Ho. unfold toJSON, bind, read_x, read_y, ret.
  rewrite Ho. simpl. rewrite Ho. destruct o. reflexivity.
Qed.

End Reading.

Lemma eqb_trans (a b c : number) :
  (a === b)%js = true -> (b === c)%js = true -> (a === c)%js = true.
Proof.
  destruct a as [p| | |], b as [q| | |], c as [r| | |]; simpl;
    try discriminate; try reflexivity.
  intros H1 H2. apply Qeq_bool_iff in H1, H2. apply Qeq_bool_iff.
  now rewrite H1.
Qed.

Section Copies.
Variable K : kind.

Lemma constructor_valid (o : XY.t number) (s : store) :
  valid_xy K o = true ->
  constructor (S := scalar_of K) (Nums (XY.x o) (XY.y o)) s
    = (Ok (length s), s ++ [o]).
Proof.
  intros Hv. apply andb_prop in Hv as [Hx Hy].
  rewrite constructor_run. unfold arg_x, arg_y.
  change (@Scalar.cast (scalar_of K)) with (Coercion.Cast K).
  rewrite (Cast_scalar K _ Hx), (Cast_scalar K _ Hy). destruct o. reflexivity.
Qed.

Lemma constructor_invalid (o : XY.t number) (s : store) :
  valid_xy K o = false ->
  exists e,
    constructor (S := scalar_of K) (Nums (XY.x o) (XY.y o)) s = (Throw e, s).
Proof.
  intros Hv. rewrite constructor_run. unfold arg_x, arg_y.
  change (@Scalar.cast (scalar_of K)) with (Coercion.Cast K).
  destruct (Coercion.Cast K (XY.x o)) as [cx|ex] eqn:Ex; [|eauto].
  destruct (Coercion.Cast K (XY.y o)) as [cy|ey] eqn:Ey; [|eauto].
  apply Cast_Ok in Ex as [_ Hx]. apply Cast_Ok in Ey as [_ Hy].
  unfold valid_xy in Hv. rewrite Hx, Hy in Hv. discriminate.
Qed.

(** X4: [copy()] goes through the constructor again.  Of a valid instance it
    yields a new instance with the very same fields; of an instance made
    invalid through a setter it throws; and whatever is then called on
    the copy, the original keeps its fields. *)
Theorem copy_independent (this : loc) (s : store) (o : XY.t number) :
  s !! this = Some o ->
  (valid_xy K o = true ->
   copy (S := scalar_of K) this s = (Ok (length s), s ++ [o])) /\
  (valid_xy K o = false ->
   exists e, copy (S := scalar_of K) this s = (Throw e, s)) /\
  (forall m l r s1 s2,
     copy (S := scalar_of K) this s = (Ok l, s1) ->
     invoke (S := scalar_of K) m l s1 = (r, s2) ->
     l <> this /\ s2 !! this = Some o).
Proof.
  intros Ho. rewrite (copy_run _ _ _ Ho). split; [|split].
  - apply constructor_valid.
  - apply constructor_invalid.
  - intros m l r s1 s2 Ec Em.
    destruct (valid_xy K o) eqn:Hv.
    + rewrite (constructor_valid _ _ Hv) in Ec. injection Ec as <- <-.
      pose proof (alloc_fresh _ _ _ Ho) as Hne.
      split; [congruence|].
      destruct (invoke_mutate (S := scalar_of K) m (length s))
        as (C & f & g & E & _).
      rewrite E in Em. apply mutate_frame in Em as [_ Hf].
      rewrite (Hf this Hne). now apply alloc_keeps.
    + destruct (constructor_invalid _ s Hv) as [e E].
      rewrite E in Ec. discriminate.
Qed.

(** X5: [eq] is an equivalence on valid instances: an instance equals its
    own fields, two instances compare the same in either direction, and
    equality carries over a third.  The store is only read. *)
Theorem eq_equivalence (s : store) (l1 l2 l3 : loc)
    (o1 o2 o3 : XY.t number) :
  s !! l1 = Some o1 -> s !! l2 = Some o2 -> s !! l3 = Some o3 ->
  valid_xy K o1 = true ->
  eq l1 (Rec o1) s = (Ok true, s) /\
  eq l1 (Rec o2) s = eq l2 (Rec o1) s /\
  (eq l1 (Rec o2) s = (Ok true, s) -> eq l2 (Rec o3) s = (Ok true, s) ->
   eq l1 (Rec o3) s = (Ok true, s)).
Proof.
  intros H1 H2 H3 Hv. apply andb_prop in Hv as [Hx Hy].
  rewrite !(eq_run l1 _ s o1 H1), !(eq_run l2 _ s o2 H2).
  unfold arg_x, arg_y. split; [|split].
  - apply is_scalar_Fin in Hx as [p ->]. apply is_scalar_Fin in Hy as [q ->].
    now rewrite !eqb_refl_Fin.
  - now rewrite (eqb_sym (XY.x o1)), (eqb_sym (XY.y o1)).
  - intros [= E12] [= E23].
    apply andb_prop in E12 as [Ex12 Ey12]. apply andb_prop in E23 as [Ex23 Ey23].
    now rewrite (eqb_trans _ _ _ Ex12 Ex23), (eqb_trans _ _ _ Ey12 Ey23).
Qed.

(** X6: [toJSON] of a [U16XY] returns both fields and changes nothing, and
    the constructor rebuilds from that record an instance with the very
    same fields. *)
Theorem toJSON_constructor (this : loc) (s : store) (o : XY.t number) :
  s !! this = Some o ->
  valid_xy K o = true ->
  toJSON this s = (Ok o, s) /\
  (let* j := toJSON this in constructor (S := scalar_of K) (Rec j)) s
    = (Ok (length s), s ++ [o]).
Proof.
  intros Ho Hv. split; [now apply toJSON_run|].
  unfold bind. rewrite (toJSON_run _ _ _ Ho).
  pose proof (constructor_valid o s Hv) as E.
  rewrite constructor_run in *. exact E.
Qed.

End Copies.

Lemma copy_independent_witness :
  (valid_xy U16_kind (XY.Make (Fin 5) (Fin 10)) = true ->
   copy (S := U16) 0%nat [XY.Make (Fin 5) (Fin 10)]
     = (Ok 1%nat, [XY.Make (Fin 5) (Fin 10)] ++ [XY.Make (Fin 5) (Fin 10)])) /\
  (valid_xy U16_kind (XY.Make (Fin 5) (Fin 10)) = false ->
   exists e, copy (S := U16) 0%nat [XY.Make (Fin 5) (Fin 10)]
             = (Throw e, [XY.Make (Fin 5) (Fin 10)])) /\
  (forall m l r s1 s2,
     copy (S := U16) 0%nat [XY.Make (Fin 5) (Fin 10)] = (Ok l, s1) ->
     invoke (S := U16) m l s1 = (r, s2) ->
     l <> 0%nat /\ s2 !! 0%nat = Some (XY.Make (Fin 5) (Fin 10))).
Proof.
  exact (copy_independent U16_kind 0%nat [XY.Make (Fin 5) (Fin 10)]
           (XY.Make (Fin 5) (Fin 10)) eq_refl).
Defined.

Lemma eq_equivalence_witness :
  eq 0%nat (Rec (XY.Make (Fin 2) (Fin 4)))
     [XY.Make (Fin 2) (Fin 4); XY.Make (Fin (4 / 2)) (Fin 4)]
    = (Ok true, [XY.Make (Fin 2) (Fin 4); XY.Make (Fin (4 / 2)) (Fin 4)]) /\
  eq 0%nat (Rec (XY.Make (Fin (4 / 2)) (Fin 4)))
     [XY.Make (Fin 2) (Fin 4); XY.Make (Fin (4 / 2)) (Fin 4)]
    = eq 1%nat (Rec (XY.Make (Fin 2) (Fin 4)))
         [XY.Make (Fin 2) (Fin 4); XY.Make (Fin (4 / 2)) (Fin 4)] /\
  (eq 0%nat (Rec (XY.Make (Fin (4 / 2)) (Fin 4)))
      [XY.Make (Fin 2) (Fin 4); XY.Make (Fin (4 / 2)) (Fin 4)]
     = (Ok true, [XY.Make (Fin 2) (Fin 4); XY.Make (Fin (4 / 2)) (Fin 4)]) ->
   eq 1%nat (Rec (XY.Make (Fin 2) (Fin 4)))
      [XY.Make (Fin 2) (Fin 4); XY.Make (Fin (4 / 2)) (Fin 4)]
     = (Ok true, [XY.Make (Fin 2) (Fin 4); XY.Make (Fin (4 / 2)) (Fin 4)]) ->
   eq 0%nat (Rec (XY.Make (Fin 2) (Fin 4)))
      [XY.Make (Fin 2) (Fin 4); XY.Make (Fin (4 / 2)) (Fin 4)]
     = (Ok true, [XY.Make (Fin 2) (Fin 4); XY.Make (Fin (4 / 2)) (Fin 4)])).
Proof.
  exact (eq_equivalence U16_kind
           [XY.Make (Fin 2) (Fin 4); XY.Make (Fin (4 / 2)) (Fin 4)]
           0%nat 1%nat 0%nat
           (XY.Make (Fin 2) (Fin 4)) (XY.Make (Fin (4 / 2)) (Fin 4))
           (XY.Make (Fin 2) (Fin 4)) eq_refl eq_refl eq_refl eq_refl).
Defined.

Lemma toJSON_constructor_witness :
  toJSON 0%nat [XY.Make (Fin 5) (Fin 10)]
    = (Ok (XY.Make (Fin 5) (Fin 10)), [XY.Make (Fin 5) (Fin 10)]) /\
  (let* j := toJSON 0%nat in constructor (S := U16) (Rec j))
     [XY.Make (Fin 5) (Fin 10)]
    = (Ok 1%nat, [XY.Make (Fin 5) (Fin 10)] ++ [XY.Make (Fin 5) (Fin 10)]).
Proof.
  exact (toJSON_constructor U16_kind 0%nat [XY.Make (Fin 5) (Fin 10)]
           (XY.Make (Fin 5) (Fin 10)) eq_refl eq_refl).
Defined.

(** ** Setting and constructing *)

(** X7: [set] and the constructor cast the same two numbers in the same
    order: on any instance [set(a)] returns exactly when [new XY(a)]
    does, with the same fields, and throws the same error otherwise.
    This is so for every scalar module. *)
Theorem set_as_constructor {S : Scalar.t} (this : loc) (s : store)
    (o : XY.t number) (a : arg) :
  s !! this = Some o ->
  match constructor a s with
  | (Ok l, s1) =>
      exists v, s1 = s ++ [v] /\
                method Assign Cast this a s = (Ok this, <[this := v]> s)
  | (Throw e, _) => exists s', method Assign Cast this a s = (Throw e, s')
  end.
Proof.
  intros Ho. rewrite constructor_run. unfold method.
  rewrite (mutate_run _ _ _ _ _ _ Ho). simpl.
  destruct (Scalar.cast (arg_x a)) as [cx|e]; [|eauto].
  destruct (Scalar.cast (arg_y a)) as [cy|e]; eauto.
Qed.

Lemma set_as_constructor_witness :
  match constructor (S := U16) (Nums (Fin 7) (Fin 70000))
                    [XY.Make (Fin 5) (Fin 10)] with
  | (Ok l, s1) =>
      exists v, s1 = [XY.Make (Fin 5) (Fin 10)] ++ [v] /\
                method (S := U16) Assign Cast 0%nat (Nums (Fin 7) (Fin 70000))
                       [XY.Make (Fin 5) (Fin 10)]
                  = (Ok 0%nat, <[0%nat := v]> [XY.Make (Fin 5) (Fin 10)])
  | (Throw e, _) =>
      exists s', method (S := U16) Assign Cast 0%nat
                        (Nums (Fin 7) (Fin 70000)) [XY.Make (Fin 5) (Fin 10)]
                 = (Throw e, s')
  end.
Proof.
  exact (set_as_constructor (S := U16) 0%nat [XY.Make (Fin 5) (Fin 10)]
           (XY.Make (Fin 5) (Fin 10)) (Nums (Fin 7) (Fin 70000)) eq_refl).
Defined.

Section Variants.
Variable K : kind.

(** X8: A static factory and the matching [set] variant agree as well: the
    cast that the factory's constructor adds accepts whatever the
    coercion returned. *)
Theorem factory_as_set (p : policy) (this : loc) (s : store)
    (o : XY.t number) (a : arg) :
  s !! this = Some o ->
  match factory (S := scalar_of K) p a s with
  | (Ok l, s1) =>
      exists v, s1 = s ++ [v] /\ l = length s /\
                method (S := scalar_of K) Assign p this a s
                  = (Ok this, <[this := v]> s)
  | (Throw e, _) =>
      exists s', method (S := scalar_of K) Assign p this a s = (Throw e, s')
  end.
Proof.
  intros Ho. unfold factory, bind, lift, method.
  rewrite (mutate_run _ _ _ _ _ _ Ho). simpl compute.
  destruct (coercion p (arg_x a)) as [cx|e] eqn:Ex; [|eauto].
  destruct (coercion p (arg_y a)) as [cy|e] eqn:Ey; [|eauto].
  apply coercion_Ok_scalar in Ex, Ey.
  rewrite constructor_run. unfold arg_x, arg_y.
  change (@Scalar.cast (scalar_of K)) with (Coercion.Cast K).
  rewrite (Cast_scalar K _ Ex), (Cast_scalar K _ Ey). eauto.
Qed.

Hypothesis HK : valid_kind K = true.

(** Every policy but Cast returns on every number but NaN. *)
Lemma coercion_total (p : policy) (r : number) :
  p <> Cast -> r <> NaN ->
  exists v, coercion (S := scalar_of K) p r = Ok v.
Proof using HK.
  intros Hp Hr.
  assert (Hf : forall f, exists v,
             Coercion.rounded K (JS.rounding f) r = Ok v).
  { intros f. destruct (rounded_Ok K f r HK Hr) as [E _]. eauto. }
  destruct p; try congruence; simpl;
    unfold Coercion.Ceil, Coercion.Floor, Coercion.Round, Coercion.Trunc,
           Coercion.Clamp; try apply Hf.
  destruct (kshape K) eqn:Hs; [apply Hf|].
  destruct (clamp_fractional K HK r Hs Hr) as [E _]. eauto.
Qed.



(** X10: [min] and [max] of a valid instance with scalar values for
    arguments never throw: each field ends up as itself or as the
    argument, not below either of them under [max] and not above either
    of them under [min]. *)
Theorem min_max_closed (op : operator) (this : loc) (s : store)
    (o : XY.t number) (a : arg) :
  s !! this = Some o ->
  valid_xy K o = true ->
  is_scalar K (arg_x a) = true -> is_scalar K (arg_y a) = true ->
  op = Max \/ op = Min ->
  method (S := scalar_of K) op Cast this a s
    = (Ok this,
       <[this := XY.Make (compute op (XY.x o) (arg_x a))
                         (compute op (XY.y o) (arg_y a))]> s) /\
  (compute op (XY.x o) (arg_x a) = XY.x o \/
   compute op (XY.x o) (arg_x a) = arg_x a) /\
  (compute op (XY.y o) (arg_y a) = XY.y o \/
   compute op (XY.y o) (arg_y a) = arg_y a) /\
  (op = Max ->
   JS.ltb (compute op (XY.x o) (arg_x a)) (XY.x o) = false /\
   JS.ltb (compute op (XY.x o) (arg_x a)) (arg_x a) = false /\
   JS.ltb (compute op (XY.y o) (arg_y a)) (XY.y o) = false /\
   JS.ltb (compute op (XY.y o) (arg_y a)) (arg_y a) = false) /\
  (op = Min ->
   JS.ltb (XY.x o) (compute op (XY.x o) (arg_x a)) = false /\
   JS.ltb (arg_x a) (compute op (XY.x o) (arg_x a)) = false /\
   JS.ltb (XY.y o) (compute op (XY.y o) (arg_y a)) = false /\
   JS.ltb (arg_y a) (compute op (XY.y o) (arg_y a)) = false).
Proof.
  intros Ho Hv Hax Hay Hop. apply andb_prop in Hv as [Hx Hy].
  assert (Hpick : forall v b, is_scalar K v = true -> is_scalar K b = true ->
            (compute op v b = v \/ compute op v b = b) /\
            is_scalar K (compute op v b) = true /\
            (op = Max -> JS.ltb (compute op v b) v = false /\
                         JS.ltb (compute op v b) b = false) /\
            (op = Min -> JS.ltb v (compute op v b) = false /\
                         JS.ltb b (compute op v b) = false)).
  { intros v b Hv Hb.
    destruct (is_scalar_Fin _ _ Hv) as [p Ep], (is_scalar_Fin _ _ Hb) as [q Eq].
    subst v b.
    destruct Hop as [-> | ->]; cbn [compute JS.max JS.min JS.ltb].
    - destruct (Qle_bool q p) eqn:E; cbn [negb].
      + split; [auto|]. split; [exact Hv|]. split; [|discriminate]. intros _.
        cbn [JS.ltb]. now rewrite E, (Qle_bool_true _ _ (Qle_refl p)).
      + split; [auto|]. split; [exact Hb|]. split; [|discriminate]. intros _.
        apply Qle_bool_false in E. cbn [JS.ltb].
        now rewrite (Qle_bool_true _ _ (Qlt_le_weak _ _ E)),
                    (Qle_bool_true _ _ (Qle_refl q)).
    - destruct (Qle_bool p q) eqn:E; cbn [negb].
      + split; [auto|]. split; [exact Hv|]. split; [discriminate|]. intros _.
        cbn [JS.ltb]. now rewrite E, (Qle_bool_true _ _ (Qle_refl p)).
      + split; [auto|]. split; [exact Hb|]. split; [discriminate|]. intros _.
        apply Qle_bool_false in E. cbn [JS.ltb].
        now rewrite (Qle_bool_true _ _ (Qlt_le_weak _ _ E)),
                    (Qle_bool_true _ _ (Qle_refl q)). }
  destruct (Hpick _ _ Hx Hax) as (Px & Sx & Mx & Nx).
  destruct (Hpick _ _ Hy Hay) as (Py & Sy & My & Ny).
  split; [|split; [exact Px|split; [exact Py|split]]].
  - unfold method. rewrite (mutate_run _ _ _ _ _ _ Ho). simpl coercion.
    change (@Scalar.cast (scalar_of K)) with (Coercion.Cast K).
    now rewrite (Cast_scalar K _ Sx), (Cast_scalar K _ Sy).
  - intros E. destruct (Mx E), (My E). auto.
  - intros E. destruct (Nx E), (Ny E). auto.
Qed.

End Variants.

Lemma factory_as_set_witness :
  match factory (S := I4) Clamp (Nums (Fin (-9)) (Fin 8.5))
                [XY.Make (Fin 0) (Fin 0)] with
  | (Ok l, s1) =>
      exists v, s1 = [XY.Make (Fin 0) (Fin 0)] ++ [v] /\
                l = length [XY.Make (Fin 0) (Fin 0)] /\
                method (S := I4) Assign Clamp 0%nat
                       (Nums (Fin (-9)) (Fin 8.5)) [XY.Make (Fin 0) (Fin 0)]
                  = (Ok 0%nat, <[0%nat := v]> [XY.Make (Fin 0) (Fin 0)])
  | (Throw e, _) =>
      exists s', method (S := I4) Assign Clamp 0%nat
                        (Nums (Fin (-9)) (Fin 8.5)) [XY.Make (Fin 0) (Fin 0)]
                 = (Throw e, s')
  end.
Proof.
  exact (factory_as_set I4_kind Clamp 0%nat [XY.Make (Fin 0) (Fin 0)]
           (XY.Make (Fin 0) (Fin 0)) (Nums (Fin (-9)) (Fin 8.5)) eq_refl).
Defined.


Lemma min_max_closed_witness :
  method (S := I4) Max Cast 0%nat (Nums (Fin 3) (Fin (-2)))
         [XY.Make (Fin (-8)) (Fin 7)]
    = (Ok 0%nat,
       <[0%nat := XY.Make (compute Max (Fin (-8)) (Fin 3))
                          (compute Max (Fin 7) (Fin (-2)))]>
         [XY.Make (Fin (-8)) (Fin 7)]) /\
  (compute Max (Fin (-8)) (Fin 3) = Fin (-8) \/
   compute Max (Fin (-8)) (Fin 3) = Fin 3) /\
  (compute Max (Fin 7) (Fin (-2)) = Fin 7 \/
   compute Max (Fin 7) (Fin (-2)) = Fin (-2)) /\
  (Max = Max ->
   JS.ltb (compute Max (Fin (-8)) (Fin 3)) (Fin (-8)) = false /\
   JS.ltb (compute Max (Fin (-8)) (Fin 3)) (Fin 3) = false /\
   JS.ltb (compute Max (Fin 7) (Fin (-2))) (Fin 7) = false /\
   JS.ltb (compute Max (Fin 7) (Fin (-2))) (Fin (-2)) = false) /\
  (Max = Min ->
   JS.ltb (Fin (-8)) (compute Max (Fin (-8)) (Fin 3)) = false /\
   JS.ltb (Fin 3) (compute Max (Fin (-8)) (Fin 3)) = false /\
   JS.ltb (Fin 7) (compute Max (Fin 7) (Fin (-2))) = false /\
   JS.ltb (Fin (-2)) (compute Max (Fin 7) (Fin (-2))) = false).
Proof.
  exact (min_max_closed I4_kind Max 0%nat [XY.Make (Fin (-8)) (Fin 7)]
           (XY.Make (Fin (-8)) (Fin 7)) (Nums (Fin 3) (Fin (-2)))
           eq_refl eq_refl eq_refl eq_refl (or_introl eq_refl)).
Defined.

(** ** Whole numbers *)

Section WholeNumbers.

Lemma Qwhole_Qeq (p q : Q) : p == q -> JS.Qwhole p = JS.Qwhole q.
Proof.
  assert (H : forall a b, a == b -> JS.Qwhole a = true -> JS.Qwhole b = true).
  { intros a b Eab Ha. unfold JS.Qwhole in *.
    apply Qeq_bool_iff in Ha. apply Qeq_bool_iff.
    rewrite <- (Qfloor_comp _ _ Eab).
    transitivity a; [symmetry; exact Eab|exact Ha]. }
  intros E. destruct (JS.Qwhole p) eqn:Hp, (JS.Qwhole q) eqn:Hq;
    try reflexivity.
  - rewrite (H p q E Hp) in Hq. discriminate.
  - rewrite (H q p (Qeq_sym _ _ E) Hq) in Hp. discriminate.
Qed.

Lemma Qwhole_Z (q : Q) : JS.Qwhole q = true -> exists z, q == inject_Z z.
Proof. intros H. exists (Qfloor q). now apply Qwhole_floor. Qed.

Lemma Qwhole_of_Z (q : Q) (z : Z) : q == inject_Z z -> JS.Qwhole q = true.
Proof. intros E. rewrite (Qwhole_Qeq _ _ E). apply Qwhole_inject_Z. Qed.

Lemma Qwhole_mult (p q : Q) :
  JS.Qwhole p = true -> JS.Qwhole q = true -> JS.Qwhole (p * q) = true.
Proof.
  intros Hp Hq. apply Qwhole_Z in Hp as [a Ea]. apply Qwhole_Z in Hq as [b Eb].
  apply (Qwhole_of_Z _ (a * b)). rewrite inject_Z_mult, Ea, Eb. reflexivity.
Qed.

Lemma Qwhole_abs (q : Q) : JS.Qwhole q = true -> JS.Qwhole (Qabs q) = true.
Proof.
  intros Hq. apply Qwhole_Z in Hq as [a Ea].
  apply (Qwhole_of_Z _ (Z.abs a)). rewrite Ea. reflexivity.
Qed.

Lemma in_range_Qeq_eq (K : kind) (p q : Q) :
  p == q -> in_range K p = in_range K q.
Proof.
  intros E. destruct (in_range K p) eqn:Hp, (in_range K q) eqn:Hq;
    try reflexivity.
  - rewrite (in_range_Qeq K p q E Hp) in Hq. discriminate.
  - rewrite (in_range_Qeq K q p (Qeq_sym _ _ E) Hq) in Hp. discriminate.
Qed.

Lemma is_scalar_Qeq (K : kind) (p q : Q) :
  p == q -> is_scalar K (Fin p) = is_scalar K (Fin q).
Proof.
  intros E. simpl. now rewrite (in_range_Qeq_eq K _ _ E), (Qwhole_Qeq _ _ E).
Qed.

Lemma floor_fixes_whole : fixes_whole Qfloor.
Proof. intros q H. symmetry. now apply Qwhole_floor. Qed.

Lemma ceiling_fixes_whole : fixes_whole Qceiling.
Proof. intros q H. symmetry. now apply Qwhole_ceiling. Qed.

Lemma trunc_fixes_whole : fixes_whole JS.Qtrunc.
Proof. intros q H. now apply Qtrunc_whole. Qed.

Lemma round_fixes_whole : fixes_whole JS.Qround_half_up.
Proof.
  intros q H. apply Qwhole_Z in H as [z E]. unfold JS.Qround_half_up.
  rewrite (Qfloor_comp _ (inject_Z z + (1 # 2))) by (now rewrite E).
  rewrite E. apply inject_Z_injective.
  unfold Qfloor, inject_Z, Qplus. simpl.
  rewrite Z.mul_1_r.
  replace (z * 2 + 1)%Z with (1 + z * 2)%Z by lia.
  rewrite Z.div_add by lia. reflexivity.
Qed.

End WholeNumbers.

(** ** Fixed points and absolute values *)

Section FixedPoints.
Variable K : kind.
Hypothesis HI : kshape K = Integral.

Lemma rounded_fixed (f : Q -> Z) (q : Q) :
  fixes_whole f ->
  is_scalar K (Fin q) = true ->
  Coercion.rounded K (JS.rounding f) (Fin q) = Ok (Fin (inject_Z (f q))) /\
  inject_Z (f q) == q.
Proof using HI.
  intros Hf Hq.
  assert (Hw : JS.Qwhole q = true).
  { simpl in Hq. rewrite HI in Hq. now apply andb_prop in Hq as [_ Hq]. }
  pose proof (Hf q Hw) as E. split; [|exact E].
  assert (Hs : is_scalar K (Fin (inject_Z (f q))) = true)
    by (now rewrite (is_scalar_Qeq K _ _ E)).
  unfold Coercion.rounded. simpl JS.rounding.
  now rewrite (saturate_scalar K _ Hs), (Cast_scalar K _ Hs).
Qed.

(** On a scalar value of an integral kind every coercion returns a
    number [===] to it. *)
Lemma coercion_fixed (p : policy) (r : number) :
  is_scalar K r = true ->
  exists v, coercion (S := scalar_of K) p r = Ok v /\ (v === r)%js = true.
Proof using HI.
  intros Hr. destruct (is_scalar_Fin _ _ Hr) as [q ->].
  assert (Hf : forall f, fixes_whole f ->
            exists v, Coercion.rounded K (JS.rounding f) (Fin q) = Ok v /\
                      (v === Fin q)%js = true).
  { intros f Hf. destruct (rounded_fixed f q Hf Hr) as [E1 E2].
    eexists. split; [exact E1|]. simpl. now apply Qeq_bool_iff. }
  destruct p.
  - exists (Fin q). split; [exact (Cast_scalar K _ Hr)|apply eqb_refl_Fin].
  - exact (Hf _ ceiling_fixes_whole).
  - change (coercion (S := scalar_of K) Clamp (Fin q))
      with (Coercion.Clamp K (Fin q)).
    unfold Coercion.Clamp. rewrite HI. exact (Hf _ trunc_fixes_whole).
  - exact (Hf _ floor_fixes_whole).
  - exact (Hf _ round_fixes_whole).
  - exact (Hf _ trunc_fixes_whole).
Qed.

(** X11: A valid vector is a fixed point of every [set] variant: [v.set(v)],
    [v.setCeil(v)], [v.setRound(v)] and the like return and leave [v]
    [eq] to what it was. *)
Theorem set_self_fixed (p : policy) (this : loc) (s : store)
    (o : XY.t number) :
  s !! this = Some o ->
  valid_xy K o = true ->
  exists o',
    method (S := scalar_of K) Assign p this (Rec o) s
      = (Ok this, <[this := o']> s) /\
    eq this (Rec o) (<[this := o']> s) = (Ok true, <[this := o']> s).
Proof using HI.
  intros Ho Hv. apply andb_prop in Hv as [Hx Hy].
  destruct (coercion_fixed p _ Hx) as (cx & Cx & Ex).
  destruct (coercion_fixed p _ Hy) as (cy & Cy & Ey).
  exists (XY.Make cx cy). unfold method.
  rewrite (mutate_run _ _ _ _ _ _ Ho). simpl. rewrite Cx, Cy.
  split; [reflexivity|].
  rewrite (eq_run this _ _ (XY.Make cx cy)) by (eapply lookup_updated; eauto).
  simpl. now rewrite Ex, Ey.
Qed.

(** X12: When no scalar value of the kind is negative, as for [U16XY], [abs]
    and [absClamp] never throw on a valid vector and leave it [eq] to
    what it was. *)
Theorem abs_unsigned (p : policy) (this : loc) (s : store)
    (o : XY.t number) :
  s !! this = Some o ->
  valid_xy K o = true ->
  0 <= kmin K ->
  exists o',
    abs_with (S := scalar_of K) p this s = (Ok this, <[this := o']> s) /\
    eq this (Rec o) (<[this := o']> s) = (Ok true, <[this := o']> s).
Proof using HI.
  intros Ho Hv Hmin. apply andb_prop in Hv as [Hx Hy].
  assert (Habs : forall v, is_scalar K v = true ->
            exists c, coercion (S := scalar_of K) p (JS.abs v) = Ok c /\
                      (c === v)%js = true).
  { intros v Hs. destruct (is_scalar_Fin _ _ Hs) as [q ->].
    assert (E : Qabs q == q).
    { apply Qabs_pos. pose proof Hs as Hs'. simpl in Hs'.
      apply andb_prop in Hs' as [Hr _]. unfold in_range in Hr.
      apply andb_prop in Hr as [Hlo _]. apply Qle_bool_iff in Hlo.
      eapply Qle_trans; eauto. }
    assert (Hs2 : is_scalar K (Fin (Qabs q)) = true)
      by (now rewrite (is_scalar_Qeq K _ _ E)).
    destruct (coercion_fixed p _ Hs2) as (c & Cc & Ec).
    exists c. split; [exact Cc|].
    eapply eqb_trans; [exact Ec|]. simpl. now apply Qeq_bool_iff. }
  destruct (Habs _ Hx) as (cx & Cx & Ex).
  destruct (Habs _ Hy) as (cy & Cy & Ey).
  exists (XY.Make cx cy). unfold abs_with.
  rewrite (mutate_run _ _ _ _ _ _ Ho). rewrite Cx, Cy.
  split; [reflexivity|].
  rewrite (eq_run this _ _ (XY.Make cx cy)) by (eapply lookup_updated; eauto).
  simpl. now rewrite Ex, Ey.
Qed.

End FixedPoints.

Lemma set_self_fixed_witness :
  exists o',
    method (S := I4) Assign Round 0%nat (Rec (XY.Make (Fin (-8)) (Fin 7)))
           [XY.Make (Fin (-8)) (Fin 7)]
      = (Ok 0%nat, <[0%nat := o']> [XY.Make (Fin (-8)) (Fin 7)]) /\
    eq 0%nat (Rec (XY.Make (Fin (-8)) (Fin 7)))
       (<[0%nat := o']> [XY.Make (Fin (-8)) (Fin 7)])
      = (Ok true, <[0%nat := o']> [XY.Make (Fin (-8)) (Fin 7)]).
Proof.
  exact (set_self_fixed I4_kind eq_refl Round 0%nat
           [XY.Make (Fin (-8)) (Fin 7)] (XY.Make (Fin (-8)) (Fin 7))
           eq_refl eq_refl).
Defined.

Lemma abs_unsigned_witness :
  exists o',
    abs_with (S := U16) Trunc 0%nat [XY.Make (Fin 5) (Fin 65535)]
      = (Ok 0%nat, <[0%nat := o']> [XY.Make (Fin 5) (Fin 65535)]) /\
    eq 0%nat (Rec (XY.Make (Fin 5) (Fin 65535)))
       (<[0%nat := o']> [XY.Make (Fin 5) (Fin 65535)])
      = (Ok true, <[0%nat := o']> [XY.Make (Fin 5) (Fin 65535)]).
Proof.
  refine (abs_unsigned U16_kind eq_refl Trunc 0%nat
            [XY.Make (Fin 5) (Fin 65535)] (XY.Make (Fin 5) (Fin 65535))
            eq_refl eq_refl _).
  unfold Qle. simpl. lia.
Defined.

(** ** The absolute value of the least [I4] *)

Section AbsoluteValue.

Lemma I4_scalar_Z (q : Q) :
  is_scalar I4_kind (Fin q) = true ->
  exists z, q == inject_Z z /\ (-8 <= z <= 7)%Z.
Proof.
  intros H. simpl in H. apply andb_prop in H as [Hr Hw].
  apply Qwhole_Z in Hw as [z E]. exists z. split; [exact E|].
  unfold in_range in Hr. apply andb_prop in Hr as [Hlo Hhi].
  apply Qle_bool_iff in Hlo, Hhi. simpl in Hlo, Hhi.
  rewrite E in Hlo, Hhi.
  change (-8) with (inject_Z (-8)) in Hlo. change 7 with (inject_Z 7) in Hhi.
  rewrite <- Zle_Qle in Hlo, Hhi. lia.
Qed.

Lemma I4_abs_scalar (z : Z) :
  (-8 <= z <= 7)%Z ->
  is_scalar I4_kind (Fin (inject_Z (Z.abs z))) = negb (z =? -8)%Z.
Proof.
  intros H.
  assert (E : z = (-8)%Z \/ z = (-7)%Z \/ z = (-6)%Z \/ z = (-5)%Z \/
              z = (-4)%Z \/ z = (-3)%Z \/ z = (-2)%Z \/ z = (-1)%Z \/
              z = 0%Z \/ z = 1%Z \/ z = 2%Z \/ z = 3%Z \/ z = 4%Z \/
              z = 5%Z \/ z = 6%Z \/ z = 7%Z) by lia.
  repeat (destruct E as [-> | E]; [reflexivity|]). subst. reflexivity.
Qed.

Lemma is_min_Z (q : Q) (z : Z) :
  q == inject_Z z -> (Fin q === Fin (-8))%js = (z =? -8)%Z.
Proof.
  intros E. simpl. destruct (Qeq_bool q (-8)) eqn:H, (z =? -8)%Z eqn:Hz;
    try reflexivity.
  - apply Qeq_bool_iff in H. rewrite E in H.
    apply Z.eqb_neq in Hz. unfold Qeq in H. simpl in H. lia.
  - apply Z.eqb_eq in Hz. subst z.
    apply Qeq_bool_iff in E.
    pose proof (eq_trans (eq_sym E) H). discriminate.
Qed.

Lemma abs_of_scalar (v : number) :
  is_scalar I4_kind v = true ->
  (Coercion.Cast I4_kind (JS.abs v) =
     if (v === Fin (-8))%js then Throw RangeViolation else Ok (JS.abs v)) /\
  exists c,
    Coercion.Clamp I4_kind (JS.abs v) = Ok c /\
    is_scalar I4_kind c = true /\
    ((v === Fin (-8))%js = true -> c = Fin 7).
Proof.
  intros Hv. destruct (is_scalar_Fin _ _ Hv) as [q ->].
  destruct (I4_scalar_Z q Hv) as (z & E & Hz).
  assert (Ea : Qabs q == inject_Z (Z.abs z)) by (rewrite E; reflexivity).
  pose proof (I4_abs_scalar z Hz) as Hs.
  rewrite <- (is_scalar_Qeq I4_kind _ _ Ea) in Hs.
  rewrite (is_min_Z q z E). simpl JS.abs. split.
  - destruct (z =? -8)%Z eqn:Hm; simpl in Hs.
    + simpl in *. apply andb_false_iff in Hs as [-> | Hs]; [reflexivity|].
      rewrite (Qwhole_of_Z _ _ Ea) in Hs. discriminate.
    + now apply Cast_scalar.
  - destruct (coercion_total I4_kind eq_refl Clamp (Fin (Qabs q)))
      as [c Hc]; [discriminate..|].
    change (Coercion.Clamp I4_kind (Fin (Qabs q)) = Ok c) in Hc.
    exists c. split; [exact Hc|].
    split; [exact (coercion_Ok_scalar I4_kind Clamp _ _ Hc)|].
    intros Hm. apply Z.eqb_eq in Hm. subst z.
    assert (H7 : Coercion.Clamp I4_kind (Fin (Qabs q)) = Ok (Fin 7)).
    { change (Coercion.Clamp I4_kind (Fin (Qabs q)))
        with (Coercion.Cast I4_kind
                (Coercion.saturate I4_kind
                   (Fin (inject_Z (JS.Qtrunc (Qabs q)))))).
      rewrite (saturate_above I4_kind); [reflexivity| |].
      - unfold Qle. simpl. lia.
      - rewrite (trunc_fixes_whole _ (Qwhole_of_Z _ _ Ea)), Ea.
        unfold Qlt. simpl. lia. }
    congruence.
Qed.

(** X13: [abs] of an [I4XY] throws exactly when a field is -8, whose absolute
    value 8 is out of range, and the error is the range error;
    [absClamp] never throws and makes such a field 7. *)
Theorem abs_at_min (this : loc) (s : store) (o : XY.t number) :
  s !! this = Some o ->
  valid_xy I4_kind o = true ->
  ((exists e s', I4XY.abs this s = (Throw e, s')) <->
   (XY.x o === Fin (-8))%js || (XY.y o === Fin (-8))%js = true) /\
  (forall e s', I4XY.abs this s = (Throw e, s') -> e = RangeViolation) /\
  (exists o',
     I4XY.absClamp this s = (Ok this, <[this := o']> s) /\
     valid_xy I4_kind o' = true /\
     ((XY.x o === Fin (-8))%js = true -> XY.x o' = Fin 7) /\
     ((XY.y o === Fin (-8))%js = true -> XY.y o' = Fin 7)).
Proof.
  intros Ho Hv. apply andb_prop in Hv as [Hx Hy].
  destruct (abs_of_scalar _ Hx) as (Cx & cx & Lx & Sx & Mx).
  destruct (abs_of_scalar _ Hy) as (Cy & cy & Ly & Sy & My).
  unfold I4XY.abs, I4XY.absClamp, abs_with.
  rewrite !(mutate_run _ _ _ _ _ _ Ho). simpl coercion.
  change (@Scalar.cast I4) with (Coercion.Cast I4_kind).
  change (@Scalar.clamp I4) with (Coercion.Clamp I4_kind).
  rewrite Cx, Cy, Lx, Ly.
  split; [|split].
  - destruct (XY.x o === Fin (-8))%js, (XY.y o === Fin (-8))%js; simpl;
      split; try discriminate; eauto.
    + intros (e & s' & H). discriminate.
  - intros e s'.
    destruct (XY.x o === Fin (-8))%js, (XY.y o === Fin (-8))%js;
      congruence.
  - exists (XY.Make cx cy). split; [reflexivity|].
    unfold valid_xy. simpl. rewrite Sx, Sy. auto.
Qed.

End AbsoluteValue.

Lemma abs_at_min_witness :
  ((exists e s', I4XY.abs 0%nat [XY.Make (Fin 3) (Fin (-8))] = (Throw e, s')) <->
   (Fin 3 === Fin (-8))%js || (Fin (-8) === Fin (-8))%js = true) /\
  (forall e s', I4XY.abs 0%nat [XY.Make (Fin 3) (Fin (-8))] = (Throw e, s') ->
                e = RangeViolation) /\
  (exists o',
     I4XY.absClamp 0%nat [XY.Make (Fin 3) (Fin (-8))]
       = (Ok 0%nat, <[0%nat := o']> [XY.Make (Fin 3) (Fin (-8))]) /\
     valid_xy I4_kind o' = true /\
     ((Fin 3 === Fin (-8))%js = true -> XY.x o' = Fin 7) /\
     ((Fin (-8) === Fin (-8))%js = true -> XY.y o' = Fin 7)).
Proof.
  exact (abs_at_min 0%nat [XY.Make (Fin 3) (Fin (-8))]
           (XY.Make (Fin 3) (Fin (-8))) eq_refl eq_refl).
Defined.

(** ** Areas and dot products *)

Section Products.
Context {S : Scalar.t}.

Lemma areaNum_run (this : loc) (s : store) (o : XY.t number) :
  s !! this = Some o -> areaNum this s = (Ok (XY.x o * XY.y o)%js, s).
Proof.
  intros Ho. unfold areaNum, bind, read_x, read_y, ret.
  rewrite Ho. simpl. rewrite Ho. reflexivity.
Qed.

Lemma dotNum_run (this : loc) (a : arg) (s : store) (o : XY.t number) :
  s !! this = Some o ->
  dotNum this a s = (Ok (XY.x o * arg_x a + XY.y o * arg_y a)%js, s).
Proof.
  intros Ho. unfold dotNum, bind, read_x, read_y, ret.
  rewrite Ho. simpl. rewrite Ho. reflexivity.
Qed.

Lemma mul_comm (a b : number) : (a * b)%js = (b * a)%js.
Proof.
  destruct a as [p| | |], b as [q| | |]; try reflexivity.
  simpl. unfold Qmult. now rewrite Z.mul_comm, Pos.mul_comm.
Qed.

(** X14: The dot product of an [I4XY] does not depend on which of two
    vectors is the receiver and which the argument, under [dotNum] and
    under [dot] and [dotClamp], errors included. *)
Theorem dot_symmetric (p : policy) (l1 l2 : loc) (s : store)
    (o1 o2 : XY.t number) :
  s !! l1 = Some o1 -> s !! l2 = Some o2 ->
  dotNum l1 (Rec o2) s = dotNum l2 (Rec o1) s /\
  dot_with p l1 (Rec o2) s = dot_with p l2 (Rec o1) s.
Proof.
  intros H1 H2.
  assert (E : dotNum l1 (Rec o2) s = dotNum l2 (Rec o1) s).
  { rewrite (dotNum_run _ _ _ _ H1), (dotNum_run _ _ _ _ H2). simpl.
    now rewrite (mul_comm (XY.x o1)), (mul_comm (XY.y o1)). }
  split; [exact E|]. unfold dot_with, bind. now rewrite E.
Qed.

End Products.

Lemma dot_symmetric_witness :
  dotNum 0%nat (Rec (XY.Make (Fin (-3)) (Fin 4)))
         [XY.Make (Fin 2) (Fin 7); XY.Make (Fin (-3)) (Fin 4)]
    = dotNum 1%nat (Rec (XY.Make (Fin 2) (Fin 7)))
             [XY.Make (Fin 2) (Fin 7); XY.Make (Fin (-3)) (Fin 4)] /\
  dot_with (S := I4) Cast 0%nat (Rec (XY.Make (Fin (-3)) (Fin 4)))
           [XY.Make (Fin 2) (Fin 7); XY.Make (Fin (-3)) (Fin 4)]
    = dot_with (S := I4) Cast 1%nat (Rec (XY.Make (Fin 2) (Fin 7)))
               [XY.Make (Fin 2) (Fin 7); XY.Make (Fin (-3)) (Fin 4)].
Proof.
  exact (dot_symmetric (S := I4) Cast 0%nat 1%nat
           [XY.Make (Fin 2) (Fin 7); XY.Make (Fin (-3)) (Fin 4)]
           (XY.Make (Fin 2) (Fin 7)) (XY.Make (Fin (-3)) (Fin 4))
           eq_refl eq_refl).
Defined.

Section Areas.
Variable K : kind.
Hypothesis HK : valid_kind K = true.
Hypothesis HI : kshape K = Integral.

(** X15: The area of a valid vector of an integral kind.  [areaNum] is the
    bare product.  [area] returns that product when it is within the
    limits and throws the range error otherwise.  [areaClamp], and the
    area under any other policy, always returns a scalar value, [===] to
    what [area] returns when [area] returns.  None of them writes. *)
Theorem area_policies (this : loc) (s : store) (o : XY.t number) :
  s !! this = Some o ->
  valid_xy K o = true ->
  areaNum this s = (Ok (XY.x o * XY.y o)%js, s) /\
  area_with (S := scalar_of K) Cast this s
    = (if is_scalar K (XY.x o * XY.y o)%js
       then Ok (XY.x o * XY.y o)%js else Throw RangeViolation, s) /\
  (forall p, p <> Cast ->
     exists v,
       area_with (S := scalar_of K) p this s = (Ok v, s) /\
       is_scalar K v = true /\
       (is_scalar K (XY.x o * XY.y o)%js = true ->
        (v === XY.x o * XY.y o)%js = true)).
Proof using HK HI.
  intros Ho Hv. apply andb_prop in Hv as [Hx Hy].
  pose proof (areaNum_run this s o Ho) as En.
  split; [exact En|].
  unfold area_with, bind. rewrite En. unfold lift.
  destruct (is_scalar_Fin _ _ Hx) as [p Ep], (is_scalar_Fin _ _ Hy) as [q Eq].
  rewrite Ep, Eq in *. simpl JS.mul.
  assert (Hw : JS.Qwhole (p * q) = true).
  { simpl in Hx, Hy. rewrite HI in Hx, Hy.
    apply andb_prop in Hx as [_ Hx]. apply andb_prop in Hy as [_ Hy].
    now apply Qwhole_mult. }
  split.
  - simpl. rewrite HI, Hw. destruct (in_range K (p * q)); reflexivity.
  - intros pol Hp.
    destruct (coercion_total K HK pol (Fin (p * q)) Hp) as [v Hc];
      [discriminate|].
    exists v. rewrite Hc. split; [reflexivity|].
    split; [exact (coercion_Ok_scalar K pol _ _ Hc)|].
    intros Hs. destruct (coercion_fixed K HI pol _ Hs) as (v' & Hc' & E).
    congruence.
Qed.

End Areas.

Lemma area_policies_witness :
  areaNum 0%nat [XY.Make (Fin 256) (Fin 256)]
    = (Ok (Fin 256 * Fin 256)%js, [XY.Make (Fin 256) (Fin 256)]) /\
  area_with (S := U16) Cast 0%nat [XY.Make (Fin 256) (Fin 256)]
    = (if is_scalar U16_kind (Fin 256 * Fin 256)%js
       then Ok (Fin 256 * Fin 256)%js else Throw RangeViolation,
       [XY.Make (Fin 256) (Fin 256)]) /\
  (forall p, p <> Cast ->
     exists v,
       area_with (S := U16) p 0%nat [XY.Make (Fin 256) (Fin 256)]
         = (Ok v, [XY.Make (Fin 256) (Fin 256)]) /\
       is_scalar U16_kind v = true /\
       (is_scalar U16_kind (Fin 256 * Fin 256)%js = true ->
        (v === Fin 256 * Fin 256)%js = true)).
Proof.
  exact (area_policies U16_kind eq_refl eq_refl 0%nat
           [XY.Make (Fin 256) (Fin 256)] (XY.Make (Fin 256) (Fin 256))
           eq_refl eq_refl).
Defined.

(** ** Colors, again *)

Section ColorBytes.

Lemma to_int32_period (n k : Z) : to_int32 (n + k * 2 ^ 32) = to_int32 n.
Proof.
  unfold to_int32.
  replace (n + k * 2 ^ 32 + 2 ^ 31)%Z with (n + 2 ^ 31 + k * 2 ^ 32)%Z by lia.
  now rewrite Z.mod_add by lia.
Qed.

Lemma bytes_of (c : Z) :
  (c mod 2 ^ 32 =
   (c / 2 ^ 24) mod 256 * 2 ^ 24 + (c / 2 ^ 16) mod 256 * 2 ^ 16 +
   (c / 2 ^ 8) mod 256 * 2 ^ 8 + (c / 2 ^ 0) mod 256)%Z.
Proof.
  change (2 ^ 32)%Z with 4294967296%Z. change (2 ^ 24)%Z with 16777216%Z.
  change (2 ^ 16)%Z with 65536%Z. change (2 ^ 8)%Z with 256%Z.
  change (2 ^ 0)%Z with 1%Z. rewrite Z.div_1_r.
  replace (c / 16777216)%Z with (c / 256 / 256 / 256)%Z
    by (rewrite !Z.div_div by lia; reflexivity).
  replace (c / 65536)%Z with (c / 256 / 256)%Z
    by (rewrite !Z.div_div by lia; reflexivity).
  pose proof (Z.div_mod c 256 ltac:(lia)) as H0.
  pose proof (Z.div_mod (c / 256) 256 ltac:(lia)) as H1.
  pose proof (Z.div_mod (c / 256 / 256) 256 ltac:(lia)) as H2.
  pose proof (Z.div_mod (c / 256 / 256 / 256) 256 ltac:(lia)) as H3.
  pose proof (Z.mod_pos_bound c 256 ltac:(lia)).
  pose proof (Z.mod_pos_bound (c / 256) 256 ltac:(lia)).
  pose proof (Z.mod_pos_bound (c / 256 / 256) 256 ltac:(lia)).
  pose proof (Z.mod_pos_bound (c / 256 / 256 / 256) 256 ltac:(lia)).
  symmetry. apply (Z.mod_unique _ _ (c / 256 / 256 / 256 / 256)); lia.
Qed.

(** X16: The four channels are the four bytes of the color's lowest 32 bits:
    put back together they give the color modulo 2^32, so two colors
    that differ by a multiple of 2^32 unpack to the same channels and
    nothing beyond the 32 bits is ever read. *)
Theorem channels_recompose (color k : Z) :
  (channel color 24 * 2 ^ 24 + channel color 16 * 2 ^ 16 +
   channel color 8 * 2 ^ 8 + channel color 0 = color mod 2 ^ 32)%Z /\
  colorIntToFloats (color + k * 2 ^ 32) = colorIntToFloats color.
Proof.
  split.
  - rewrite !channel_div_mod by lia. symmetry. apply bytes_of.
  - unfold colorIntToFloats, channel. now rewrite to_int32_period.
Qed.

End ColorBytes.

(** * The release script *)

Module PublishFacts.
Import String Ascii Publish.
Local Open Scope string_scope.

Lemma typeof_string (v : value) :
  (typeof v =? "string") = true <-> exists s, v = VString s.
Proof.
  split.
  - destruct v; intros H; try (vm_compute in H; discriminate H). eauto.
  - intros [s ->]. reflexivity.
Qed.

(** X17: [isPackage] accepts exactly the objects, plain records and arrays
    alike, whose [version] and [name] properties are strings: null,
    which [typeof] calls an object too, and everything that is not an
    object are turned down. *)
Theorem isPackage_sound (val : value) :
  isPackage val = true <->
  ((exists fields, val = VObject fields) \/
   (exists items fields, val = VArray items fields)) /\
  exists name version,
    get val "version" = VString version /\
    get val "name" = VString name.
Proof.
  assert (Hobj : forall v,
             ((exists fields, v = VObject fields) \/
              (exists items fields, v = VArray items fields)) ->
             isPackage v
             = (typeof (get v "version") =? "string") &&
               (typeof (get v "name") =? "string")).
  { intros v [[fields ->]|(items & fields & ->)]; reflexivity. }
  split.
  - intros H.
    assert (Hshape : (exists fields, val = VObject fields) \/
                     (exists items fields, val = VArray items fields)).
    { destruct val as [| | | | | | |fields|items fields];
        try (vm_compute in H; discriminate H); eauto. }
    split; [exact Hshape|].
    rewrite (Hobj _ Hshape) in H.
    apply andb_prop in H as [Hv Hn].
    apply typeof_string in Hv as [version Hv].
    apply typeof_string in Hn as [name Hn].
    exists name, version. auto.
  - intros (Hshape & name & version & Ev & En).
    rewrite (Hobj _ Hshape), Ev, En. reflexivity.
Qed.

(** X18: The words [git] and [deno] pass to the process are the arguments
    cut at every single space: there is at least one word, no word has
    a space in it, and the words joined by spaces are the arguments
    again. *)
Theorem split_on_space (args : string) :
  concat " " (split_on " " args) = args /\
  Forall (fun w => occurs " " w = false) (split_on " " args) /\
  split_on " " args <> nil.
Proof.
  induction args as [|c rest (IH1 & IH2 & IH3)].
  - repeat split; [repeat constructor|discriminate].
  - cbn [split_on]. destruct (Ascii.eqb c " ") eqn:Ec.
    + apply Ascii.eqb_eq in Ec. subst c.
      split; [|split; [|discriminate]].
      * cbn [concat]. destruct (split_on " " rest) eqn:E; [congruence|].
        cbn [String.append]. now rewrite <- IH1.
      * constructor; [reflexivity|exact IH2].
    + destruct (split_on " " rest) as [|w ws] eqn:E; [congruence|].
      split; [|split; [|discriminate]].
      * rewrite <- IH1. destruct ws; reflexivity.
      * inversion IH2 as [|? ? Hw Hws]; subst. constructor; [|exact Hws].
        cbn [occurs]. now rewrite Ec, Hw.
Qed.

Section Script.
Variable W : outside.

Ltac unfold_script :=
  unfold main, andThen, pure, console_error, prompt, read_text_file,
    write_text_file, parse, git, deno, run_process.

Ltac innermost x :=
  lazymatch x with
  | context [match ?y with _ => _ end] => innermost y
  | _ => destruct x eqn:?
  end.

(** Case analysis on every answer of the outside, in the order the
    script asks. *)
Ltac split_run H :=
  repeat (cbv beta iota in H;
          match type of H with
          | context [match ?x with _ => _ end] => innermost x
          end);
  cbv beta iota in H.

Ltac tidy :=
  repeat match goal with
         | H : negb _ = false |- _ => apply negb_false_iff in H
         | H : negb _ = true |- _ => apply negb_true_iff in H
         | H : _ || _ = false |- _ => apply orb_false_elim in H as [? ?]
         end.

Lemma failed_status (a : answer) :
  failed (Run ("git" :: split_on " " "status -z") (Some a)) = false.
Proof. unfold failed. destruct (ok a); reflexivity. Qed.

Lemma failed_ok (cmd : list string) (a : answer) :
  ok a = true -> failed (Run cmd (Some a)) = false.
Proof. intros E. unfold failed. rewrite E. reflexivity. Qed.

(** X19: Without a first argument that is a release type the script does one
    thing only: it reports the error and exits with 1.  No file is read
    and no process is started. *)
Theorem main_needs_release_type :
  match hd_error (args W) with
  | Some r => isReleaseType r
  | None => false
  end = false ->
  exists msg, main W nil = (Done 1%Z, ConsoleError msg :: nil).
Proof.
  intros H. unfold_script. destruct (hd_error (args W)) as [r|]; [|eauto].
  rewrite H. cbv beta iota delta [negb]. eauto.
Qed.

(** X20: The exit code tells whether an error was reported: with 0 nothing
    went to [console.error]; with 1 exactly one message did, and it was
    the last thing the script did; and when an exception ends the run
    nothing was reported either. *)
Theorem main_reports_failure (r : ending Z) (l : log) :
  main W nil = (r, l) ->
  match r with
  | Done code =>
      (code = 0%Z /\ existsb is_error l = false) \/
      (code = 1%Z /\ exists msg l', l = ConsoleError msg :: l' /\
                                   existsb is_error l' = false)
  | Uncaught => existsb is_error l = false
  end.
Proof.
  unfold_script. intros H. split_run H.
  all: injection H as <- <-.
  all: first [ reflexivity
             | left; split; reflexivity
             | right; split; [reflexivity|]; do 2 eexists; split; reflexivity ].
Qed.

(** X21: An exit with 0 means the whole release was carried out: the first
    argument was a release type, package.json held a package, the next
    version could be computed, the branch had a name, and the processes
    started and the file written are, in order, the eleven steps of the
    release, with the new version in the file written; and no process
    but possibly [git status] failed. *)
Theorem main_success (l : log) :
  main W nil = (Done 0%Z, l) ->
  exists releaseType content pkg branch nextVer,
    hd_error (args W) = Some releaseType /\
    isReleaseType releaseType = true /\
    JSON_parse W content = Some pkg /\
    isPackage pkg = true /\
    semver_inc W (text_of (get pkg "version")) releaseType = Some nextVer /\
    branch <> "" /\
    actions (rev l)
      = steps branch nextVer
              (JSON_stringify W (set pkg "version" (VString nextVer))) /\
    existsb failed l = false.
Proof.
  unfold_script. intros H. split_run H.
  all: try discriminate H.
  all: injection H as <-; tidy.
  all: do 5 eexists; repeat (split; [first [eassumption|reflexivity]|]).
  all: split; [apply String.eqb_neq; eassumption|].
  all: split; [reflexivity|].
  all: cbn [existsb]; rewrite failed_status, !failed_ok by assumption.
  all: reflexivity.
Qed.

(** X22: However a run ends, what it started and wrote is a beginning of the
    steps of a release, in their order; and a process that fails, [git
    status] apart, is the last one: all that follows it is one error
    message and the exit with 1. *)
Theorem main_stops_at_failure (r : ending Z) (l : log) :
  main W nil = (r, l) ->
  (exists branch nextVer content,
     actions (rev l) `prefix_of` steps branch nextVer content) /\
  (forall l1 e l2,
     l = (l1 ++ e :: l2)%list -> failed e = true ->
     r = Done 1%Z /\ exists msg, l1 = ConsoleError msg :: nil).
Proof.
  unfold_script. intros H. split_run H.
  all: injection H as <- <-; tidy.
  all: split;
    [ eexists _, _, _, _; cbn [rev app actions]; unfold steps; reflexivity
    | intros l1 e l2 E F;
      repeat (destruct l1 as [|? l1];
              [ injection E as <- <-
              | injection E as <- E ]);
      try (destruct l1; discriminate E);
      try (rewrite failed_status in F; discriminate F);
      try (rewrite failed_ok in F by assumption; discriminate F);
      try (cbn [failed] in F; discriminate F);
      try (split; [reflexivity|eexists; reflexivity]) ].
  Unshelve. all: exact "".
Qed.

End Script.

Lemma main_needs_release_type_witness :
  exists msg,
    main (calm ("foo" :: nil) ooz_package) nil
      = (Done 1%Z, ConsoleError msg :: nil).
Proof.
  exact (main_needs_release_type (calm ("foo" :: nil) ooz_package) eq_refl).
Defined.

Lemma main_reports_failure_witness :
  match fst (main (calm ("patch" :: nil) VNull) nil) with
  | Done code =>
      (code = 0%Z /\
       existsb is_error (snd (main (calm ("patch" :: nil) VNull) nil))
         = false) \/
      (code = 1%Z /\
       exists msg l',
         snd (main (calm ("patch" :: nil) VNull) nil)
           = ConsoleError msg :: l' /\
         existsb is_error l' = false)
  | Uncaught =>
      existsb is_error (snd (main (calm ("patch" :: nil) VNull) nil)) = false
  end.
Proof.
  refine (main_reports_failure (calm ("patch" :: nil) VNull)
            (fst (main (calm ("patch" :: nil) VNull) nil))
            (snd (main (calm ("patch" :: nil) VNull) nil)) _).
  vm_compute. reflexivity.
Defined.

Lemma main_success_witness :
  exists releaseType content pkg branch nextVer,
    hd_error ("patch" :: nil) = Some releaseType /\
    isReleaseType releaseType = true /\
    JSON_parse (calm ("patch" :: nil) ooz_package) content = Some pkg /\
    isPackage pkg = true /\
    semver_inc (calm ("patch" :: nil) ooz_package)
               (text_of (get pkg "version")) releaseType = Some nextVer /\
    branch <> "" /\
    actions (rev (snd (main (calm ("patch" :: nil) ooz_package) nil)))
      = steps branch nextVer
              (JSON_stringify (calm ("patch" :: nil) ooz_package)
                              (set pkg "version" (VString nextVer))) /\
    existsb failed (snd (main (calm ("patch" :: nil) ooz_package) nil))
      = false.
Proof.
  refine (main_success (calm ("patch" :: nil) ooz_package)
            (snd (main (calm ("patch" :: nil) ooz_package) nil)) _).
  vm_compute. reflexivity.
Defined.

Lemma main_stops_at_failure_witness :
  ((exists branch nextVer content,
      actions
        (rev (snd (main (commit_fails ("patch" :: nil) ooz_package) nil)))
        `prefix_of` steps branch nextVer content) /\
   (forall l1 e l2,
      snd (main (commit_fails ("patch" :: nil) ooz_package) nil)
        = (l1 ++ e :: l2)%list ->
      failed e = true ->
      Done 1%Z = Done 1%Z /\ exists msg, l1 = ConsoleError msg :: nil)) /\
  fst (main (commit_fails ("patch" :: nil) ooz_package) nil) = Done 1%Z /\
  nth_error (snd (main (commit_fails ("patch" :: nil) ooz_package) nil)) 1
    = Some (Run ("git" :: "commit" :: "--message" :: "v1.0.1" :: nil)
                (Some (Answer false ""))) /\
  failed (Run ("git" :: "commit" :: "--message" :: "v1.0.1" :: nil)
              (Some (Answer false ""))) = true /\
  existsb failed (snd (main (commit_fails ("patch" :: nil) ooz_package) nil))
    = true.
Proof.
  split.
  - refine (main_stops_at_failure (commit_fails ("patch" :: nil) ooz_package)
              (Done 1%Z)
              (snd (main (commit_fails ("patch" :: nil) ooz_package) nil)) _).
    vm_compute. reflexivity.
  - repeat split; vm_compute; reflexivity.
Defined.

End PublishFacts.
